(** * Dynamic replica factor calculator: a shallow embedding

    The development follows [calculator.py] (class [Calculator]) and
    [replica_clean.py] (class [ReplicaAlgorithm]); the last part of the
    definitions covers the pure functions of [app.py].

    Conventions of the embedding:
    - a [pd.Timestamp] is its number of nanoseconds, a [Z];
    - Python integers are [Z];
    - a finite floating point number is idealised as the exact rational it
      denotes ([Q]), so a quotient of integers is the exact quotient (as it
      is in double precision wherever an exact tie or an integer bound is
      concerned, for operands below 2^52); the non-finite values that
      numpy produces on a division by zero are kept ([float64]);
    - the log ([self.df]) is the list of its rows, in file order;
    - Python dictionaries that are shared between lists ([HD], [WD], [CD],
      [all_files]) live in a store and are referred to by address;
    - an exception is a value of [exn]; a method of [ReplicaAlgorithm] is a
      state transformer that may raise. *)

From Stdlib Require Import ZArith QArith Qround Lia Lqa Permutation Sorted.
From Stdlib Require OrderedTypeEx.
From stdpp Require Import gmap strings list pretty sorting.

Open Scope Z_scope.
Set Warnings "-clear-no-such-hyp".

(** ** Exceptions and results *)

Inductive exn : Type :=
  | KeyError (key : string)
  | IndexError
  | ZeroDivisionError.

Inductive result (A : Type) : Type :=
  | Ok (a : A)
  | Raise (e : exn).
Arguments Ok {A} a.
Arguments Raise {A} e.

Definition is_ok {A} (r : result A) : bool :=
  match r with Ok _ => true | Raise _ => false end.

(** ** Numbers *)

(** [a / b] on two Python integers: true division, [ZeroDivisionError] on a
    zero divisor. *)
Definition true_div (a b : Z) : result Q :=
  if b =? 0 then Raise ZeroDivisionError else Ok (inject_Z a / inject_Z b)%Q.

(** A numpy [float64]: [sum()] of a column returns one, and dividing one by
    zero yields an infinity or a NaN (with a warning), not an exception. *)
Inductive float64 : Type :=
  | Fin (q : Q)
  | PInf
  | NInf
  | NaN.

(** [x / n] for a [float64] [x] and a Python integer [n]. *)
Definition np_true_div (x : float64) (n : Z) : float64 :=
  match x with
  | NaN => NaN
  | Fin q =>
      if n =? 0 then
        match (q ?= 0)%Q with Gt => PInf | Lt => NInf | Eq => NaN end
      else Fin (q / inject_Z n)
  | PInf => if n <? 0 then NInf else PInf
  | NInf => if n <? 0 then PInf else NInf
  end.

(** [x >= t] and [x < t] for a finite [x]; every comparison with NaN is
    false. *)
Definition float_ge (x : Q) (t : float64) : bool :=
  match t with
  | Fin q => Qle_bool q x
  | PInf => false
  | NInf => true
  | NaN => false
  end.

Definition float_lt (x : Q) (t : float64) : bool :=
  match t with
  | Fin q => negb (Qle_bool q x)
  | PInf => true
  | NInf => false
  | NaN => false
  end.

(** Python's built-in [round] on a float: to the nearest integer, an exact
    half-way case to the even neighbour. *)
Definition round (x : Q) : Z :=
  let f := Qfloor x in
  match (x - inject_Z f ?= 1 # 2)%Q with
  | Lt => f
  | Gt => f + 1
  | Eq => if Z.even f then f else f + 1
  end.

(** Rounding with half-way cases resolved upward, for comparison. *)
Definition round_half_up (x : Q) : Z := Qfloor (x + (1 # 2))%Q.

(** [Series.sum()] of a float column. *)
Fixpoint series_sum (l : list Q) : Q :=
  match l with
  | [] => 0%Q
  | x :: t => (x + series_sum t)%Q
  end.

(** ** calculator.py *)

Definition calculate_weight (dnc_i DN_count : Z) : Z :=
  if Qle_bool (inject_Z DN_count * 0.75) (inject_Z dnc_i) then 4
  else if Qle_bool (inject_Z DN_count * 0.5) (inject_Z dnc_i) then 3
  else if Qle_bool (inject_Z DN_count * 0.25) (inject_Z dnc_i) then 2
  else 1.

Definition calculate_popularity_degree (ac_i dnc_i w_i crf_i : Z) : result Q :=
  let crf_i := if crf_i =? 0 then 1 else crf_i in
  true_div (ac_i * dnc_i * w_i) crf_i.

(** ** Data *)

(** A row of the log. *)
Record AccessEvent : Type := {
  filename : string;
  node_id : Z;
  timestamp : Z;
  current_replication_factor : Z
}.

(** A row of the [file_metrics] frame built by [process_files]; [fname] is
    its ['filename'] column. *)
Record FileMetrics : Type := {
  fname : string;
  ac_i : Z;
  dnc_i : Z;
  crf_i : Z;
  w_i : Z;
  PD_i : Q
}.

Inductive Classification : Type := HOT | WARM | COLD.

Global Instance Classification_eq_dec : EqDecision Classification.
Proof. solve_decision. Defined.

(** The dictionary [file_dict] that [classify_files] makes of a row. The
    keys added later are absent ([None]) until they are assigned;
    ['classification'] starts as Python's [None]. *)
Record file_dict : Type := {
  row : FileMetrics;
  classification : option Classification;
  nrf_i : option Z;
  erasure_coding : option bool;
  threshold : option float64;
  interval_start : option Z;
  interval_end : option Z
}.

(** A row of a result file, with the columns selected by
    [save_interval_results]. *)
Record ResultRow : Type := {
  r_filename : string;
  r_ac_i : Z;
  r_dnc_i : Z;
  r_w_i : Z;
  r_crf_i : Z;
  r_PD_i : Q;
  r_threshold : float64;
  r_classification : Classification;
  r_nrf_i : Z;
  r_erasure_coding : bool;
  r_interval_start : Z;
  r_interval_end : Z
}.

(** [calculate_threshold]: a frame built from an empty list of rows has no
    columns, so selecting ['PD_i'] raises [KeyError]. *)
Definition column_PD_i (file_metrics : list FileMetrics) : result (list Q) :=
  match file_metrics with
  | [] => Raise (KeyError "PD_i")
  | _ => Ok (PD_i <$> file_metrics)
  end.

Definition calculate_threshold (file_metrics : list FileMetrics) (DN_count : Z)
  : result float64 :=
  let n := Z.of_nat (length file_metrics) in
  match column_PD_i file_metrics with
  | Raise e => Raise e
  | Ok col =>
      let sum_PD := Fin (series_sum col) in
      let mean_PD := np_true_div sum_PD n in
      let T := np_true_div mean_PD DN_count in
      Ok T
  end.

(** ** Time intervals *)

Definition Timedelta_minutes (m : Z) : Z := m * 60 * 1000000000.

Definition interval_duration : Z := Timedelta_minutes 60.

(** [Series.min()] and [Series.max()]; [None] is [NaT], the result on an
    empty column. *)
Definition series_min (l : list Z) : option Z :=
  match l with
  | [] => None
  | x :: t => Some (foldr Z.min x t)
  end.

Definition series_max (l : list Z) : option Z :=
  match l with
  | [] => None
  | x :: t => Some (foldr Z.max x t)
  end.

(** The [while current < max_time] loop. [None] is "out of fuel". *)
Fixpoint while_loop (fuel : nat) (current max_time : Z) (intervals : list (Z * Z))
  : option (list (Z * Z)) :=
  if current <? max_time then
    match fuel with
    | O => None
    | S fuel' =>
        let end_ := current + interval_duration in
        while_loop fuel' end_ max_time (intervals ++ [(current, end_)])
    end
  else Some intervals.

(** [set_time_interval]: comparisons with [NaT] are false, so an empty log
    yields no interval. *)
Definition set_time_interval (df : list AccessEvent) : option (list (Z * Z)) :=
  match series_min (timestamp <$> df), series_max (timestamp <$> df) with
  | Some min_time, Some max_time =>
      while_loop (Z.to_nat ((max_time - min_time) / interval_duration + 1))
        min_time max_time []
  | _, _ => Some []
  end.

Definition read_logfile (df : list AccessEvent) (start_time end_time : Z)
  : list AccessEvent :=
  filter (λ e, start_time ≤ timestamp e ∧ timestamp e < end_time) df.

(** [Series.unique()]: the distinct values in order of first appearance. *)
Fixpoint unique_from `{EqDecision A} (seen l : list A) : list A :=
  match l with
  | [] => []
  | x :: t =>
      if decide (x ∈ seen) then unique_from seen t
      else x :: unique_from (x :: seen) t
  end.

Definition unique `{EqDecision A} (l : list A) : list A := unique_from [] l.

(** [Series.iloc[0]]. *)
Definition iloc0 {A} (l : list A) : result A :=
  match l with
  | [] => Raise IndexError
  | x :: _ => Ok x
  end.

(** ** The state of a run *)

(** [current_rf] is [self.current_rf]; [heap] holds the [file_dict]
    objects, an address being a position in it; [disk] lists the result
    files written so far, each with its interval index. *)
Record state : Type := {
  current_rf : gmap string Z;
  heap : list file_dict;
  disk : list (nat * list ResultRow)
}.

(** A method: it transforms the state and returns a value or raises; the
    state reached when an exception is raised is kept. *)
Definition M (A : Type) : Type := state → result A * state.

Global Instance M_ret : MRet M := λ A a s, (Ok a, s).

Global Instance M_bind : MBind M := λ A B f m s,
  match m s with
  | (Ok a, s') => f a s'
  | (Raise e, s') => (Raise e, s')
  end.

Definition lift {A} (r : result A) : M A := λ s, (r, s).

Definition get_current_rf : M (gmap string Z) := λ s, (Ok (current_rf s), s).

(** [self.current_rf[filename] = v] *)
Definition set_current_rf (filename : string) (v : Z) : M unit := λ s,
  (Ok (), {| current_rf := <[filename := v]> (current_rf s);
             heap := heap s; disk := disk s |}).

(** A new dictionary object; returns its address. *)
Definition alloc (d : file_dict) : M nat := λ s,
  (Ok (length (heap s)),
   {| current_rf := current_rf s; heap := heap s ++ [d]; disk := disk s |}).

(** Reading through a reference. A reference always points into the heap;
    the [KeyError] below is never reached. *)
Definition deref (a : nat) : M file_dict := λ s,
  match heap s !! a with
  | Some d => (Ok d, s)
  | None => (Raise (KeyError "file_data"), s)
  end.

(** Assignment to keys of the dictionary at address [a]. *)
Definition update (a : nat) (f : file_dict → file_dict) : M unit := λ s,
  (Ok (), {| current_rf := current_rf s; heap := alter f a (heap s);
             disk := disk s |}).

(** [df.to_csv(f'interval_{interval_idx}_results.csv')] *)
Definition to_csv (interval_idx : nat) (rows : list ResultRow) : M unit := λ s,
  (Ok (), {| current_rf := current_rf s; heap := heap s;
             disk := disk s ++ [(interval_idx, rows)] |}).

(** A [for] loop, and a [for] loop that threads local variables. *)
Fixpoint for_ {A} (l : list A) (body : A → M unit) : M unit :=
  match l with
  | [] => mret ()
  | x :: t => body x ;; for_ t body
  end.

Fixpoint for_acc {A B} (l : list A) (acc : B) (body : B → A → M B) : M B :=
  match l with
  | [] => mret acc
  | x :: t => acc' ← body acc x; for_acc t acc' body
  end.

(** ** Setters of [file_dict] keys *)

Definition to_dict (r : FileMetrics) : file_dict :=
  {| row := r; classification := None; nrf_i := None; erasure_coding := None;
     threshold := None; interval_start := None; interval_end := None |}.

Definition set_classification (c : Classification) (d : file_dict) : file_dict :=
  {| row := row d; classification := Some c; nrf_i := nrf_i d;
     erasure_coding := erasure_coding d; threshold := threshold d;
     interval_start := interval_start d; interval_end := interval_end d |}.

Definition set_nrf_i (v : Z) (d : file_dict) : file_dict :=
  {| row := row d; classification := classification d; nrf_i := Some v;
     erasure_coding := erasure_coding d; threshold := threshold d;
     interval_start := interval_start d; interval_end := interval_end d |}.

Definition set_saved (ec : bool) (T : float64) (start_time end_time : Z)
    (d : file_dict) : file_dict :=
  {| row := row d; classification := classification d; nrf_i := nrf_i d;
     erasure_coding := Some ec; threshold := Some T;
     interval_start := Some start_time; interval_end := Some end_time |}.

(** [d[key]] for a key that may be absent. *)
Definition getitem {A} (key : string) (v : option A) : result A :=
  match v with
  | Some x => Ok x
  | None => Raise (KeyError key)
  end.

(** [DataFrame.sort_values(['sort_key', 'filename'])]: a stable insertion
    sort on the pair (classification order, file name). *)
Definition classification_order (c : Classification) : Z :=
  match c with HOT => 0 | WARM => 1 | COLD => 2 end.

Definition row_leb (a b : ResultRow) : bool :=
  let ka := classification_order (r_classification a) in
  let kb := classification_order (r_classification b) in
  (ka <? kb) || ((ka =? kb) && String.leb (r_filename a) (r_filename b)).

Fixpoint sort_insert (r : ResultRow) (l : list ResultRow) : list ResultRow :=
  match l with
  | [] => [r]
  | x :: t => if row_leb r x then r :: x :: t else x :: sort_insert r t
  end.

Definition sort_values (l : list ResultRow) : list ResultRow :=
  foldr sort_insert [] l.

(** [pd.DataFrame(all_files)[columns]] for one dictionary. Every dictionary
    that reaches this point carries all twelve keys. *)
Definition select_columns (d : file_dict) : result ResultRow :=
  match classification d, nrf_i d, erasure_coding d, threshold d,
        interval_start d, interval_end d with
  | Some c, Some n, Some ec, Some T, Some s, Some e =>
      Ok {| r_filename := fname (row d); r_ac_i := ac_i (row d);
            r_dnc_i := dnc_i (row d); r_w_i := w_i (row d);
            r_crf_i := crf_i (row d); r_PD_i := PD_i (row d);
            r_threshold := T; r_classification := c; r_nrf_i := n;
            r_erasure_coding := ec; r_interval_start := s;
            r_interval_end := e |}
  | _, _, _, _, _, _ => Raise (KeyError "columns")
  end.

(** [pd.DataFrame(all_files)[columns]]: the rows of the frame, read from
    the dictionaries in the order of the list. *)
Fixpoint for_rows (l : list nat) (acc : list ResultRow) : M (list ResultRow) :=
  match l with
  | [] => mret acc
  | a :: t =>
      d ← deref a;
      r ← lift (select_columns d);
      for_rows t (acc ++ [r])
  end.

(** ** replica_clean.py: class ReplicaAlgorithm *)

Section ReplicaAlgorithm.

(** [self.DN_count] and [self.df] are fixed during a run. *)
Variable DN_count : Z.
Variable df : list AccessEvent.

Definition process_files (interval_logs : list AccessEvent)
  : M (list FileMetrics) :=
  for_acc (unique (filename <$> interval_logs)) [] (λ files name,
    let file_logs := filter (λ e, filename e = name) interval_logs in
    let ac_i := Z.of_nat (length file_logs) in
    let dnc_i := Z.of_nat (length (unique (node_id <$> file_logs))) in
    rf ← get_current_rf;
    crf_i ← match rf !! name with
            | Some v => mret v
            | None =>
                crf_i ← lift (iloc0 (current_replication_factor <$> file_logs));
                set_current_rf name crf_i;;
                mret crf_i
            end;
    let w_i := calculate_weight dnc_i DN_count in
    PD_i ← lift (calculate_popularity_degree ac_i dnc_i w_i crf_i);
    mret (files ++ [ {| fname := name; ac_i := ac_i; dnc_i := dnc_i;
                        crf_i := crf_i; w_i := w_i; PD_i := PD_i |} ])).

Definition classify_files (file_metrics : list FileMetrics) (T : float64)
  : M (list nat * list nat * list nat) :=
  for_acc file_metrics ([], [], []) (λ '(HD, WD, CD) r,
    let PD_i := PD_i r in
    let w_i := w_i r in
    file_dict ← alloc (to_dict r);
    if float_ge PD_i T && bool_decide (w_i ∈ [3; 4]) then
      update file_dict (set_classification HOT);;
      mret (HD ++ [file_dict], WD, CD)
    else if float_ge PD_i T && bool_decide (w_i ∈ [1; 2]) then
      update file_dict (set_classification WARM);;
      mret (HD, WD ++ [file_dict], CD)
    else if float_lt PD_i T && bool_decide (w_i ∈ [3; 4]) then
      update file_dict (set_classification WARM);;
      mret (HD, WD ++ [file_dict], CD)
    else
      update file_dict (set_classification COLD);;
      mret (HD, WD, CD ++ [file_dict])).

Definition calculate_new_rf_for_hot_warm (HD WD : list nat) : M unit :=
  for_ (HD ++ WD) (λ file_data,
    d ← deref file_data;
    let filename := fname (row d) in
    let crf_i := crf_i (row d) in
    let dnc_i := dnc_i (row d) in
    nrf_i ← lift (true_div (crf_i * dnc_i) DN_count);
    let nrf_i := Z.max 1 (round nrf_i) in
    set_current_rf filename nrf_i;;
    update file_data (set_nrf_i nrf_i)).

Definition process_cold_data (CD : list nat) : M unit :=
  for_ CD (λ file_data,
    d ← deref file_data;
    let filename := fname (row d) in
    let nrf_i := 1 in
    set_current_rf filename nrf_i;;
    update file_data (set_nrf_i nrf_i)).

Definition save_interval_results (interval_idx : nat) (start_time end_time : Z)
    (HD WD CD : list nat) (threshold : float64) : M unit :=
  let all_files := HD ++ WD ++ CD in
  for_ all_files (λ file_data,
    d ← deref file_data;
    nrf_i ← lift (getitem "nrf_i" (nrf_i d));
    update file_data (set_saved (nrf_i =? 1) threshold start_time end_time));;
  rows ← for_rows all_files [];
  (* selecting columns of a frame without rows *)
  (if bool_decide (rows = []) then lift (Raise (KeyError "columns"))
   else mret ());;
  to_csv interval_idx (sort_values rows).

(** The body of the loop of [run]. *)
Definition run_interval (interval_idx : nat) (start_time end_time : Z) : M unit :=
  let interval_logs := read_logfile df start_time end_time in
  file_metrics ← process_files interval_logs;
  T ← lift (calculate_threshold file_metrics DN_count);
  '(HD, WD, CD) ← classify_files file_metrics T;
  calculate_new_rf_for_hot_warm HD WD;;
  process_cold_data CD;;
  save_interval_results interval_idx start_time end_time HD WD CD T.

(** [for interval_idx, (start_time, end_time) in enumerate(time_interval, 1)] *)
Fixpoint run_loop (interval_idx : nat) (time_interval : list (Z * Z)) : M unit :=
  match time_interval with
  | [] => mret ()
  | (start_time, end_time) :: rest =>
      run_interval interval_idx start_time end_time;;
      run_loop (S interval_idx) rest
  end.

Definition init : state := {| current_rf := ∅; heap := []; disk := [] |}.

(** [ReplicaAlgorithm(log_file, DN_count).run()]: the outcome and the
    final state; [None] only if the interval loop ran out of fuel. *)
Definition run : option (result unit * state) :=
  match set_time_interval df with
  | Some time_interval => Some (run_loop 1 time_interval init)
  | None => None
  end.

End ReplicaAlgorithm.

(** * A functional description of the run

    The methods above mutate [self.current_rf] and the dictionaries in the
    heap. The definitions of this part describe the same computation as
    values; the lemmas that follow show that the methods compute them. *)

(** The value of [calculate_popularity_degree]. *)
Definition PD_value (ac_i dnc_i w_i crf_i : Z) : Q :=
  (inject_Z (ac_i * dnc_i * w_i) / inject_Z (if crf_i =? 0 then 1 else crf_i))%Q.

(** [interval_logs[interval_logs['filename'] == filename]] *)
Definition file_logs_of (interval_logs : list AccessEvent) (name : string)
  : list AccessEvent :=
  filter (λ e, filename e = name) interval_logs.

(** The replication factor of the first row of a file in the window. *)
Definition first_crf (interval_logs : list AccessEvent) (name : string) : Z :=
  default 0 (head (current_replication_factor <$> file_logs_of interval_logs name)).

(** The row that [process_files] builds for a file, [rf] being
    [current_rf] when the window is entered. *)
Definition metrics_of (DN_count : Z) (rf : gmap string Z)
    (interval_logs : list AccessEvent) (name : string) : FileMetrics :=
  let file_logs := file_logs_of interval_logs name in
  let ac := Z.of_nat (length file_logs) in
  let dnc := Z.of_nat (length (unique (node_id <$> file_logs))) in
  let crf := match rf !! name with
             | Some v => v
             | None => first_crf interval_logs name
             end in
  let w := calculate_weight dnc DN_count in
  {| fname := name; ac_i := ac; dnc_i := dnc; crf_i := crf; w_i := w;
     PD_i := PD_value ac dnc w crf |}.

(** A file without an entry gets the factor of its first row. *)
Definition seed_one (interval_logs : list AccessEvent) (rf : gmap string Z)
    (name : string) : gmap string Z :=
  match rf !! name with
  | Some _ => rf
  | None => <[name := first_crf interval_logs name]> rf
  end.

(** First-sight seeding of [current_rf] by [process_files]. *)
Definition seed (interval_logs : list AccessEvent) (rf : gmap string Z)
    (names : list string) : gmap string Z :=
  foldl (seed_one interval_logs) rf names.

(** The decision of [classify_files] on one row. *)
Definition classify (T : float64) (r : FileMetrics) : Classification :=
  if float_ge (PD_i r) T && bool_decide (w_i r ∈ [3; 4]) then HOT
  else if float_ge (PD_i r) T && bool_decide (w_i r ∈ [1; 2]) then WARM
  else if float_lt (PD_i r) T && bool_decide (w_i r ∈ [3; 4]) then WARM
  else COLD.

(** The new replication factor of a row, by its class: the value that
    [calculate_new_rf_for_hot_warm] or [process_cold_data] assigns. It is
    only used where the division is defined. *)
Definition nrf_value (DN_count : Z) (c : Classification) (r : FileMetrics) : Z :=
  match c with
  | COLD => 1
  | _ => Z.max 1 (round (inject_Z (crf_i r * dnc_i r) / inject_Z DN_count))
  end.

(** The dictionary of a row once [classify_files] has classified it. *)
Definition mkdict (T : float64) (r : FileMetrics) : file_dict :=
  set_classification (classify T r) (to_dict r).

(** The addresses, from [base] on, of the rows of class [c]. *)
Fixpoint select (c : Classification) (T : float64) (base : nat)
    (ms : list FileMetrics) : list nat :=
  match ms with
  | [] => []
  | r :: t =>
      (if decide (classify T r = c) then [base] else []) ++ select c T (S base) t
  end.

(** [cells h l ds]: the addresses [l] hold the dictionaries [ds]. *)
Definition cells (h : list file_dict) (l : list nat) (ds : list file_dict) : Prop :=
  Forall2 (λ a d, h !! a = Some d) l ds.

(** The effect of a loop body [F] on the dictionary it visits and on
    [current_rf]; [F d] is what the body computes from the dictionary [d]:
    a transformation of [current_rf] and a reassignment of keys of [d], or
    an exception. *)
Definition cell_upd
    (F : file_dict →
         result ((gmap string Z → gmap string Z) * (file_dict → file_dict)))
    (d : file_dict) : file_dict :=
  match F d with Ok (_, u) => u d | Raise _ => d end.

Definition cell_rf
    (F : file_dict →
         result ((gmap string Z → gmap string Z) * (file_dict → file_dict)))
    (rf : gmap string Z) (d : file_dict) : gmap string Z :=
  match F d with Ok (g, _) => g rf | Raise _ => rf end.

(** The dictionary of a row after the update of its class. *)
Definition dict_nrf (DN_count : Z) (T : float64) (r : FileMetrics) : file_dict :=
  set_nrf_i (nrf_value DN_count (classify T r) r) (mkdict T r).

(** The dictionary of a row when it is saved. *)
Definition final_dict (DN_count : Z) (T : float64) (start_time end_time : Z)
    (r : FileMetrics) : file_dict :=
  set_saved (nrf_value DN_count (classify T r) r =? 1) T start_time end_time
    (dict_nrf DN_count T r).

Definition set_rf_of (DN_count : Z) (T : float64) (rf : gmap string Z)
    (r : FileMetrics) : gmap string Z :=
  <[fname r := nrf_value DN_count (classify T r) r]> rf.

(** What the bodies of the three loops over dictionaries compute. *)
Definition F_hot_warm (DN_count : Z) (d : file_dict)
  : result ((gmap string Z → gmap string Z) * (file_dict → file_dict)) :=
  match true_div (crf_i (row d) * dnc_i (row d)) DN_count with
  | Ok q => Ok (λ rf, <[fname (row d) := Z.max 1 (round q)]> rf,
                set_nrf_i (Z.max 1 (round q)))
  | Raise e => Raise e
  end.

Definition F_cold (d : file_dict)
  : result ((gmap string Z → gmap string Z) * (file_dict → file_dict)) :=
  Ok (λ rf, <[fname (row d) := 1]> rf, set_nrf_i 1).

Definition F_save (T : float64) (start_time end_time : Z) (d : file_dict)
  : result ((gmap string Z → gmap string Z) * (file_dict → file_dict)) :=
  match getitem "nrf_i" (nrf_i d) with
  | Ok n => Ok (λ rf, rf, set_saved (n =? 1) T start_time end_time)
  | Raise e => Raise e
  end.

(** The value of [calculate_threshold] on a frame with rows. *)
Definition threshold_value (ms : list FileMetrics) (DN_count : Z) : float64 :=
  np_true_div (np_true_div (Fin (series_sum (PD_i <$> ms)))
                 (Z.of_nat (length ms))) DN_count.

(** The frame [file_metrics] of a window with events [L]. *)
Definition interval_metrics (DN_count : Z) (rf : gmap string Z)
    (L : list AccessEvent) : list FileMetrics :=
  metrics_of DN_count rf L <$> unique (filename <$> L).

(** The rows of one class, in the order of the frame. *)
Definition of_class (T : float64) (c : Classification) (ms : list FileMetrics)
  : list FileMetrics :=
  filter (λ r, classify T r = c) ms.

(** Rows in the order of [all_files = HD + WD + CD]. *)
Definition by_class (T : float64) (ms : list FileMetrics) : list FileMetrics :=
  of_class T HOT ms ++ of_class T WARM ms ++ of_class T COLD ms.

(** The row of the result file for a row of the frame. *)
Definition final_row (DN_count : Z) (T : float64) (start_time end_time : Z)
    (r : FileMetrics) : ResultRow :=
  let n := nrf_value DN_count (classify T r) r in
  {| r_filename := fname r; r_ac_i := ac_i r; r_dnc_i := dnc_i r;
     r_w_i := w_i r; r_crf_i := crf_i r; r_PD_i := PD_i r; r_threshold := T;
     r_classification := classify T r; r_nrf_i := n;
     r_erasure_coding := (n =? 1); r_interval_start := start_time;
     r_interval_end := end_time |}.

(** The result table of an interval, and [current_rf] after it. *)
Definition interval_rows (DN_count : Z) (rf : gmap string Z)
    (L : list AccessEvent) (start_time end_time : Z) : list ResultRow :=
  let ms := interval_metrics DN_count rf L in
  let T := threshold_value ms DN_count in
  sort_values (final_row DN_count T start_time end_time <$> by_class T ms).

Definition interval_rf (DN_count : Z) (rf : gmap string Z)
    (L : list AccessEvent) : gmap string Z :=
  let ms := interval_metrics DN_count rf L in
  let T := threshold_value ms DN_count in
  foldl (set_rf_of DN_count T) (seed L rf (unique (filename <$> L)))
    (by_class T ms).

(** The interval raises no exception: it has events, and no division by a
    zero [DN_count] is attempted. *)
Definition interval_ok (DN_count : Z) (rf : gmap string Z)
    (L : list AccessEvent) : Prop :=
  L ≠ [] ∧
  (DN_count ≠ 0 ∨
   let ms := interval_metrics DN_count rf L in
   let T := threshold_value ms DN_count in
   of_class T HOT ms ++ of_class T WARM ms = []).

Global Instance interval_ok_dec DN_count rf L : Decision (interval_ok DN_count rf L).
Proof. unfold interval_ok. apply _. Defined.

(** The result tables of the intervals completed before the first
    exception, in order. *)
Fixpoint run_rows (DN_count : Z) (df : list AccessEvent) (rf : gmap string Z)
    (time_interval : list (Z * Z)) : list (list ResultRow) :=
  match time_interval with
  | [] => []
  | (start_time, end_time) :: rest =>
      let L := read_logfile df start_time end_time in
      if decide (interval_ok DN_count rf L) then
        interval_rows DN_count rf L start_time end_time
        :: run_rows DN_count df (interval_rf DN_count rf L) rest
      else []
  end.

(** The number of iterations of the loop from [current]. *)
Definition interval_count (current max_time : Z) : nat :=
  Z.to_nat ((max_time - current + interval_duration - 1) / interval_duration).

(** The [i]-th interval from [min_time]. *)
Definition nth_interval (min_time : Z) (i : nat) : Z * Z :=
  (min_time + Z.of_nat i * interval_duration,
   min_time + (Z.of_nat i + 1) * interval_duration).

(** The decision table of the classifier, for a finite threshold [t]. *)
Definition decision_table (t PD : Q) (w : Z) (c : Classification) : Prop :=
  ((t <= PD)%Q ∧ w ∈ [3; 4] ∧ c = HOT)
  ∨ ((t <= PD)%Q ∧ w ∈ [1; 2] ∧ c = WARM)
  ∨ ((PD < t)%Q ∧ w ∈ [3; 4] ∧ c = WARM)
  ∨ ((PD < t)%Q ∧ w ∈ [1; 2] ∧ c = COLD).

(** The row of file [f] in a result table. *)
Definition find_row (f : string) (rows : list ResultRow) : option ResultRow :=
  head (filter (λ r, r_filename r = f) rows).

(** The [nrf_i] of file [f] in the latest of the tables (given in
    chronological order) that has a row for it. *)
Fixpoint last_nrf (f : string) (tables : list (list ResultRow)) : option Z :=
  match tables with
  | [] => None
  | rows :: later =>
      match last_nrf f later with
      | Some v => Some v
      | None => r_nrf_i <$> find_row f rows
      end
  end.

(** A table in which a file name determines the row. *)
Definition functional_rows (rows : list ResultRow) : Prop :=
  ∀ r1 r2, r1 ∈ rows → r2 ∈ rows → r_filename r1 = r_filename r2 → r1 = r2.

(** ** Worked examples *)

(** The two files of the worked example: [F] is hot, [G] is cold. *)
Definition example_F : FileMetrics :=
  {| fname := "F"; ac_i := 50; dnc_i := 9; crf_i := 3; w_i := 4;
     PD_i := PD_value 50 9 4 3 |}.

Definition example_G : FileMetrics :=
  {| fname := "G"; ac_i := 2; dnc_i := 1; crf_i := 3; w_i := 1;
     PD_i := PD_value 2 1 1 3 |}.

(** Ten data nodes. In the first hour file [a] is read by five distinct
    nodes and file [b] once; in the second hour [a] is read once more. *)
Definition event (f : string) (n t crf : Z) : AccessEvent :=
  {| filename := f; node_id := n; timestamp := t;
     current_replication_factor := crf |}.

Definition example_log : list AccessEvent :=
  [event "a" 1 0 5; event "a" 2 10 5; event "a" 3 20 5; event "a" 4 30 5;
   event "a" 5 40 5; event "b" 1 50 3;
   event "a" 1 (interval_duration + 5) 5].

(** The first interval of that log alone, and the whole run. *)
Definition example_first : result unit * state :=
  run_interval 10 example_log 1 0 interval_duration init.

Definition example_run : result unit * state :=
  default (Ok (), init) (run 10 example_log).

(** The row of file [a] in the first interval: 5 * 5 / 10 = 2.5. *)
Definition example_row_a : ResultRow :=
  {| r_filename := "a"; r_ac_i := 5; r_dnc_i := 5; r_w_i := 3; r_crf_i := 5;
     r_PD_i := PD_value 5 5 3 5;
     r_threshold := threshold_value
                      [ {| fname := "a"; ac_i := 5; dnc_i := 5; crf_i := 5;
                           w_i := 3; PD_i := PD_value 5 5 3 5 |};
                        {| fname := "b"; ac_i := 1; dnc_i := 1; crf_i := 3;
                           w_i := 1; PD_i := PD_value 1 1 1 3 |} ] 10;
     r_classification := HOT; r_nrf_i := 2; r_erasure_coding := false;
     r_interval_start := 0; r_interval_end := interval_duration |}.

Definition example_intervals : list (Z * Z) :=
  [(0, interval_duration); (interval_duration, 2 * interval_duration)].

(** The tables of the two intervals of the worked run. *)
Definition example_rows (k : nat) : list ResultRow :=
  default [] (snd <$> disk (snd example_run) !! k).

(** The row of file [a] in the second interval: it enters with the factor 2
    that the first interval gave it. *)
Definition example_row_a2 : ResultRow :=
  {| r_filename := "a"; r_ac_i := 1; r_dnc_i := 1; r_w_i := 1; r_crf_i := 2;
     r_PD_i := PD_value 1 1 1 2;
     r_threshold := threshold_value
                      [ {| fname := "a"; ac_i := 1; dnc_i := 1; crf_i := 2;
                           w_i := 1; PD_i := PD_value 1 1 1 2 |} ] 10;
     r_classification := WARM; r_nrf_i := 1; r_erasure_coding := true;
     r_interval_start := interval_duration;
     r_interval_end := 2 * interval_duration |}.

(** Two events exactly one interval apart. *)
Definition aligned_log : list AccessEvent :=
  [event "a" 1 0 3; event "a" 2 interval_duration 3].

(** Two events with an idle hour between them. *)
Definition gap_log : list AccessEvent :=
  [event "a" 1 0 3; event "a" 2 (2 * interval_duration + 1) 3].

(** * app.py

    The functions of the front end that compute: the check of the columns
    of an uploaded log and the selection of the result files. The current
    directory is the list of its file names, in the arbitrary order of
    [os.listdir]. *)

Definition required_columns : list string :=
  ["filename"; "node_id"; "timestamp"; "current_replication_factor"].

(** [validate_csv_format(df)], on [df.columns]. *)
Definition validate_csv_format (columns : list string) : bool * list string :=
  let missing_columns := filter (λ col, col ∉ columns) required_columns in
  match missing_columns with
  | [] => (true, [])
  | _ :: _ => (false, missing_columns)
  end.

(** [str.startswith] and [str.endswith]. *)
Definition startswith (s prefix : string) : bool := String.prefix prefix s.

Definition endswith (s suffix : string) : bool :=
  let n := String.length s in
  let k := String.length suffix in
  (k <=? n)%nat && String.eqb (String.substring (n - k) k s) suffix.

(** The name of the file that [save_interval_results] writes:
    [f'interval_{interval_idx}_results.csv']. *)
Definition output_file (interval_idx : nat) : string :=
  "interval_" +:+ pretty interval_idx +:+ "_results.csv".

(** [file.startswith('interval_') and file.endswith('_results.csv')] *)
Definition is_result_file (file : string) : bool :=
  startswith file "interval_" && endswith file "_results.csv".

(** [create_download_zip()]: the names of the files written to the
    archive, in the order of the directory [listdir]. *)
Definition create_download_zip (listdir : list string) : list string :=
  filter (λ file, is_result_file file = true) listdir.

(** [sorted] on a list of strings. *)
Definition sorted (l : list string) : list string := merge_sort String.le l.

(** [interval_files] of [main]; the tab of position [i], labelled
    [Interval i+1], shows the file of position [i] of this list. *)
Definition interval_files (listdir : list string) : list string :=
  sorted (filter (λ f, is_result_file f = true) listdir).

(** * Basic facts *)

Lemma bind_unfold {A B} (m : M A) (f : A → M B) (s : state) :
  (m ≫= f) s =
  match m s with
  | (Ok a, s') => f a s'
  | (Raise e, s') => (Raise e, s')
  end.
Proof. reflexivity. Qed.

Lemma state_eta (s : state) :
  {| current_rf := current_rf s; heap := heap s; disk := disk s |} = s.
Proof. by destruct s. Qed.

Section unique_facts.
Context `{EqDecision A}.
Implicit Types l seen : list A.

Lemma elem_of_unique_from seen l x :
  x ∈ unique_from seen l ↔ x ∈ l ∧ x ∉ seen.
Proof.
  revert seen. induction l as [|y t IH]; intros seen; simpl.
  - set_solver.
  - destruct (decide (y ∈ seen)) as [Hin|Hnin].
    + rewrite IH. set_solver.
    + rewrite elem_of_cons, IH. split.
      * intros [->|[Ht Hs]]; [set_solver|]. split; [set_solver|].
        set_solver.
      * intros [Hx Hs]. destruct (decide (x = y)) as [->|Hne]; [by left|].
        right. set_solver.
Qed.

Lemma NoDup_unique_from seen l : NoDup (unique_from seen l).
Proof.
  revert seen. induction l as [|y t IH]; intros seen; simpl.
  - constructor.
  - destruct (decide (y ∈ seen)); [apply IH|].
    constructor; [|apply IH].
    rewrite elem_of_unique_from. set_solver.
Qed.

Lemma elem_of_unique l x : x ∈ unique l ↔ x ∈ l.
Proof. unfold unique. rewrite elem_of_unique_from. set_solver. Qed.

Lemma NoDup_unique l : NoDup (unique l).
Proof. apply NoDup_unique_from. Qed.

Lemma unique_nil_inv l : unique l = [] → l = [].
Proof. destruct l as [|x t]; [done|]. unfold unique. simpl. done. Qed.

(** [nunique] never exceeds the number of rows. *)
Lemma unique_from_length seen l : (length (unique_from seen l) ≤ length l)%nat.
Proof.
  revert seen. induction l as [|y t IH]; intros seen; simpl; [lia|].
  destruct (decide (y ∈ seen)); simpl.
  - specialize (IH seen). lia.
  - specialize (IH (y :: seen)). lia.
Qed.
End unique_facts.

(** * [process_files] computes [metrics_of] and seeds [current_rf] *)

Lemma popularity_degree_value ac dnc w crf :
  calculate_popularity_degree ac dnc w crf = Ok (PD_value ac dnc w crf).
Proof.
  unfold calculate_popularity_degree, PD_value, true_div.
  destruct (crf =? 0) eqn:E; [done|]. by rewrite E.
Qed.

Lemma file_logs_nonempty (L : list AccessEvent) (name : string) :
  name ∈ filename <$> L → file_logs_of L name ≠ [].
Proof.
  intros [e [-> He]]%list_elem_of_fmap Hnil.
  assert (e ∈ file_logs_of L (filename e)) as Hin.
  { unfold file_logs_of. by apply list_elem_of_filter. }
  rewrite Hnil in Hin. by apply not_elem_of_nil in Hin.
Qed.

Lemma iloc0_first_crf (L : list AccessEvent) (name : string) :
  name ∈ filename <$> L →
  iloc0 (current_replication_factor <$> file_logs_of L name)
  = Ok (first_crf L name).
Proof.
  intros Hin%file_logs_nonempty. unfold first_crf.
  by destruct (file_logs_of L name).
Qed.

Lemma metrics_of_seed_one DN L rf name name' :
  name ≠ name' →
  metrics_of DN (seed_one L rf name) L name' = metrics_of DN rf L name'.
Proof.
  intros Hne. unfold metrics_of, seed_one.
  destruct (rf !! name); [done|]. by rewrite lookup_insert_ne.
Qed.

Section process_files_facts.
Variable DN_count : Z.
Variable L : list AccessEvent.

Let body := λ (files : list FileMetrics) (name : string),
    let file_logs := filter (λ e, filename e = name) L in
    let ac_i := Z.of_nat (length file_logs) in
    let dnc_i := Z.of_nat (length (unique (node_id <$> file_logs))) in
    rf ← get_current_rf;
    crf_i ← match rf !! name with
            | Some v => mret v
            | None =>
                crf_i ← lift (iloc0 (current_replication_factor <$> file_logs));
                set_current_rf name crf_i;;
                mret crf_i
            end;
    let w_i := calculate_weight dnc_i DN_count in
    PD_i ← lift (calculate_popularity_degree ac_i dnc_i w_i crf_i);
    mret (files ++ [ {| fname := name; ac_i := ac_i; dnc_i := dnc_i;
                        crf_i := crf_i; w_i := w_i; PD_i := PD_i |} ]).

Lemma process_files_body files name s :
  name ∈ filename <$> L →
  body files name s
  = (Ok (files ++ [metrics_of DN_count (current_rf s) L name]),
     {| current_rf := seed_one L (current_rf s) name;
        heap := heap s; disk := disk s |}).
Proof.
  intros Hin. unfold body, metrics_of, seed_one.
  rewrite bind_unfold. simpl.
  destruct (current_rf s !! name) as [v|] eqn:Hrf.
  - rewrite bind_unfold. simpl. rewrite bind_unfold.
    unfold lift. rewrite popularity_degree_value. simpl.
    by rewrite state_eta.
  - rewrite !bind_unfold. unfold lift at 1.
    fold (file_logs_of L name). rewrite (iloc0_first_crf L name Hin).
    simpl. rewrite bind_unfold. unfold lift.
    by rewrite popularity_degree_value.
Qed.

Lemma process_files_loop names : ∀ files s,
  NoDup names →
  (∀ n, n ∈ names → n ∈ filename <$> L) →
  for_acc names files body s
  = (Ok (files ++ (metrics_of DN_count (current_rf s) L <$> names)),
     {| current_rf := seed L (current_rf s) names;
        heap := heap s; disk := disk s |}).
Proof.
  induction names as [|name rest IH]; intros files s Hnd Hin; simpl.
  - by rewrite app_nil_r, state_eta.
  - apply NoDup_cons in Hnd as [Hfresh Hnd].
    rewrite bind_unfold, process_files_body by (apply Hin; left).
    rewrite IH; [|done|intros n Hn; apply Hin; by right]. simpl.
    rewrite <-app_assoc. simpl. do 4 f_equal.
    apply list_fmap_ext. intros i n Hn.
    apply metrics_of_seed_one. intros ->.
    apply Hfresh. eapply list_elem_of_lookup_2, Hn.
Qed.

Lemma process_files_spec s :
  process_files DN_count L s
  = (Ok (metrics_of DN_count (current_rf s) L <$> unique (filename <$> L)),
     {| current_rf := seed L (current_rf s) (unique (filename <$> L));
        heap := heap s; disk := disk s |}).
Proof.
  unfold process_files. fold body.
  rewrite process_files_loop; [done|apply NoDup_unique|].
  intros n. by rewrite elem_of_unique.
Qed.
End process_files_facts.

(** * [classify_files] allocates one classified dictionary per row *)

Lemma elem_of_select c T ms : ∀ base a,
  a ∈ select c T base ms ↔
  ∃ i r, a = (base + i)%nat ∧ ms !! i = Some r ∧ classify T r = c.
Proof.
  induction ms as [|r t IH]; intros base a; simpl.
  - split; [by intros ?%not_elem_of_nil|]. by intros (i & r & _ & ? & _).
  - rewrite elem_of_app, IH. split.
    + intros [Hhd|(i & r' & -> & Hi & Hc)].
      * destruct (decide (classify T r = c)); [|by apply not_elem_of_nil in Hhd].
        apply list_elem_of_singleton in Hhd as ->.
        exists 0%nat, r. split; [lia|done].
      * exists (S i), r'. split; [lia|done].
    + intros ([|i] & r' & -> & Hi & Hc); simpl in Hi.
      * left. injection Hi as ->. rewrite decide_True by done.
        rewrite Nat.add_0_r. apply list_elem_of_singleton. done.
      * right. exists i, r'. split; [lia|done].
Qed.

Lemma select_ge c T ms base a : a ∈ select c T base ms → (base ≤ a)%nat.
Proof. rewrite elem_of_select. intros (i & r & -> & _). lia. Qed.

Lemma NoDup_select c T ms : ∀ base, NoDup (select c T base ms).
Proof.
  induction ms as [|r t IH]; intros base; simpl; [constructor|].
  destruct (decide (classify T r = c)); simpl; [|apply IH].
  constructor; [|apply IH]. intros Hin%select_ge. lia.
Qed.

Lemma select_disjoint c c' T ms base a :
  c ≠ c' → a ∈ select c T base ms → a ∉ select c' T base ms.
Proof.
  intros Hne (i & r & -> & Hi & Hc)%elem_of_select
    (j & r' & Hij & Hj & Hc')%elem_of_select.
  assert (i = j) as -> by lia. congruence.
Qed.

Lemma NoDup_select_all T ms base :
  NoDup (select HOT T base ms ++ select WARM T base ms ++ select COLD T base ms).
Proof.
  apply NoDup_app. split; [apply NoDup_select|]. split.
  - intros a Ha [Hw|Hc]%elem_of_app.
    + by eapply (select_disjoint HOT WARM), Hw.
    + by eapply (select_disjoint HOT COLD), Hc.
  - apply NoDup_app. split; [apply NoDup_select|]. split; [|apply NoDup_select].
    intros a Ha Hc. by eapply (select_disjoint WARM COLD), Hc.
Qed.

Lemma cells_select c T ms : ∀ base h,
  (∀ i r, ms !! i = Some r → h !! (base + i)%nat = Some (mkdict T r)) →
  cells h (select c T base ms)
    (mkdict T <$> filter (λ r, classify T r = c) ms).
Proof.
  unfold cells.
  induction ms as [|r t IH]; intros base h Hh; simpl; [constructor|].
  assert (Forall2 (λ a d, h !! a = Some d) (select c T (S base) t)
            (mkdict T <$> filter (λ r0, classify T r0 = c) t)) as Htail.
  { apply IH. intros i r' Hi. specialize (Hh (S i) r' Hi).
    by replace (S base + i)%nat with (base + S i)%nat by lia. }
  rewrite filter_cons. destruct (decide (classify T r = c)); simpl; [|done].
  constructor; [|done]. specialize (Hh 0%nat r eq_refl).
  by rewrite Nat.add_0_r in Hh.
Qed.

Section classify_files_facts.
Variable T : float64.

Let body := λ '(HD, WD, CD) (r : FileMetrics),
    let PD_i := PD_i r in
    let w_i := w_i r in
    file_dict ← alloc (to_dict r);
    if float_ge PD_i T && bool_decide (w_i ∈ [3; 4]) then
      update file_dict (set_classification HOT);;
      mret (HD ++ [file_dict], WD, CD)
    else if float_ge PD_i T && bool_decide (w_i ∈ [1; 2]) then
      update file_dict (set_classification WARM);;
      mret (HD, WD ++ [file_dict], CD)
    else if float_lt PD_i T && bool_decide (w_i ∈ [3; 4]) then
      update file_dict (set_classification WARM);;
      mret (HD, WD ++ [file_dict], CD)
    else
      update file_dict (set_classification COLD);;
      mret (HD, WD, CD ++ [file_dict]).

Lemma classify_files_body HD WD CD r s :
  body (HD, WD, CD) r s
  = (Ok (HD ++ select HOT T (length (heap s)) [r],
         WD ++ select WARM T (length (heap s)) [r],
         CD ++ select COLD T (length (heap s)) [r]),
     {| current_rf := current_rf s; heap := heap s ++ [mkdict T r];
        disk := disk s |}).
Proof.
  unfold body, mkdict. rewrite bind_unfold. simpl.
  remember (classify T r) as cl eqn:Hc. unfold classify in Hc. revert Hc.
  assert (∀ c, alter (set_classification c) (length (heap s))
                 (heap s ++ [to_dict r])
               = heap s ++ [set_classification c (to_dict r)]) as Halter.
  { intros c. rewrite <-(Nat.add_0_r (length (heap s))).
    by rewrite alter_app_r. }
  destruct (float_ge (PD_i r) T && bool_decide (w_i r ∈ [3; 4]));
    [|destruct (float_ge (PD_i r) T && bool_decide (w_i r ∈ [1; 2]));
      [|destruct (float_lt (PD_i r) T && bool_decide (w_i r ∈ [3; 4]))]];
    intros ->; rewrite bind_unfold; unfold update; simpl;
    rewrite Halter, ?app_nil_r; done.
Qed.

Lemma classify_files_loop ms : ∀ HD WD CD s,
  for_acc ms (HD, WD, CD) body s
  = (Ok (HD ++ select HOT T (length (heap s)) ms,
         WD ++ select WARM T (length (heap s)) ms,
         CD ++ select COLD T (length (heap s)) ms),
     {| current_rf := current_rf s; heap := heap s ++ (mkdict T <$> ms);
        disk := disk s |}).
Proof.
  induction ms as [|r t IH]; intros HD WD CD s.
  - simpl. by rewrite !app_nil_r, state_eta.
  - cbn [for_acc]. rewrite bind_unfold, classify_files_body.
    rewrite IH. cbn [heap current_rf disk].
    rewrite length_app. cbn [length]. rewrite Nat.add_1_r.
    rewrite <-!app_assoc. cbn [fmap list_fmap]. simpl.
    by rewrite <-!app_assoc.
Qed.

Lemma classify_files_spec ms s :
  classify_files ms T s
  = (Ok (select HOT T (length (heap s)) ms,
         select WARM T (length (heap s)) ms,
         select COLD T (length (heap s)) ms),
     {| current_rf := current_rf s; heap := heap s ++ (mkdict T <$> ms);
        disk := disk s |}).
Proof. unfold classify_files. fold body. by rewrite classify_files_loop. Qed.
End classify_files_facts.

(** * Loops over shared dictionaries *)

Lemma cells_app h l1 l2 ds1 ds2 :
  cells h l1 ds1 → cells h l2 ds2 → cells h (l1 ++ l2) (ds1 ++ ds2).
Proof. apply Forall2_app. Qed.

Lemma cells_frame h h' l ds :
  (∀ b, b ∈ l → h' !! b = h !! b) → cells h l ds → cells h' l ds.
Proof.
  intros Hsame Hc. unfold cells in *.
  induction Hc as [|a d l ds Ha Hc IH]; constructor.
  - rewrite Hsame; [done|by left].
  - apply IH. intros b Hb. apply Hsame. by right.
Qed.

Section cell_loop.
(** The body of a loop over addresses reads the dictionary [d] at its
    address, computes [F d], and on success transforms [current_rf] and
    reassigns keys of [d]. *)
Variable F : file_dict →
             result ((gmap string Z → gmap string Z) * (file_dict → file_dict)).
Variable body : nat → M unit.
Hypothesis body_step : ∀ a s d,
  heap s !! a = Some d →
  body a s = match F d with
             | Ok (g, u) =>
                 (Ok (), {| current_rf := g (current_rf s);
                            heap := alter u a (heap s); disk := disk s |})
             | Raise e => (Raise e, s)
             end.

Lemma for_cells_ok l ds : ∀ s,
  NoDup l →
  cells (heap s) l ds →
  Forall (λ d, is_ok (F d) = true) ds →
  ∃ h', for_ l body s
        = (Ok (), {| current_rf := foldl (cell_rf F) (current_rf s) ds;
                     heap := h'; disk := disk s |})
        ∧ cells h' l (cell_upd F <$> ds)
        ∧ (∀ b, b ∉ l → h' !! b = heap s !! b).
Proof.
  revert ds. induction l as [|a l IH]; intros ds s Hnd Hc Hok.
  - apply Forall2_nil_inv_l in Hc as ->.
    exists (heap s). simpl. split; [by rewrite state_eta|].
    split; [constructor|done].
  - apply Forall2_cons_inv_l in Hc as (d & ds' & Ha & Hc & ->).
    apply NoDup_cons in Hnd as [Hfresh Hnd].
    apply Forall_cons in Hok as [Hd Hok].
    cbn [for_]. rewrite bind_unfold, (body_step a s d Ha).
    cbn [foldl fmap list_fmap].
    assert (cell_upd F d = match F d with Ok (_, u) => u d | Raise _ => d end)
      as Hupd by done.
    assert (cell_rf F (current_rf s) d
            = match F d with Ok (g, _) => g (current_rf s)
              | Raise _ => current_rf s end) as Hrf by done.
    rewrite Hupd, Hrf. clear Hupd Hrf.
    destruct (F d) as [[g u]|e] eqn:HF; [|done].
    set (s1 := {| current_rf := g (current_rf s);
                  heap := alter u a (heap s); disk := disk s |}).
    destruct (IH ds' s1) as (h' & Hrun & Hcells & Hframe); [done| |done|].
    + apply cells_frame with (h := heap s); [|done].
      intros b Hb. simpl. apply list_lookup_alter_ne. by intros ->.
    + exists h'. split; [by rewrite Hrun|]. split.
      * constructor; [|done].
        rewrite Hframe by done. simpl.
        by rewrite list_lookup_alter_eq, Ha.
      * intros b Hb. rewrite Hframe by set_solver. simpl.
        apply list_lookup_alter_ne. set_solver.
Qed.

Lemma for_cells_raise a l d e s :
  heap s !! a = Some d → F d = Raise e →
  for_ (a :: l) body s = (Raise e, s).
Proof.
  intros Ha HF. cbn [for_]. by rewrite bind_unfold, (body_step a s d Ha), HF.
Qed.
End cell_loop.

Lemma foldl_cell_rf F (mk : FileMetrics → file_dict)
    (g : gmap string Z → FileMetrics → gmap string Z) rs : ∀ rf,
  Forall (λ r, ∀ rf', cell_rf F rf' (mk r) = g rf' r) rs →
  foldl (cell_rf F) rf (mk <$> rs) = foldl g rf rs.
Proof.
  induction rs as [|r t IH]; intros rf Hall; [done|].
  apply Forall_cons in Hall as [Hr Hall]. simpl. rewrite Hr. by apply IH.
Qed.

Lemma fmap_cell_upd F (mk mk' : FileMetrics → file_dict) rs :
  Forall (λ r, cell_upd F (mk r) = mk' r) rs →
  cell_upd F <$> (mk <$> rs) = mk' <$> rs.
Proof.
  induction rs as [|r t IH]; intros Hall; [done|].
  apply Forall_cons in Hall as [Hr Hall]. simpl. rewrite Hr. f_equal.
  by apply IH.
Qed.

(** * The update loops *)

Section update_facts.
Variable DN_count : Z.
Variable T : float64.
Variables start_time end_time : Z.

Lemma F_hot_warm_mkdict r :
  DN_count ≠ 0 → classify T r ≠ COLD →
  F_hot_warm DN_count (mkdict T r)
  = Ok (λ rf, set_rf_of DN_count T rf r,
        set_nrf_i (nrf_value DN_count (classify T r) r)).
Proof.
  intros HDN Hc. unfold F_hot_warm, true_div, set_rf_of, nrf_value. simpl.
  apply Z.eqb_neq in HDN. rewrite HDN.
  by destruct (classify T r).
Qed.

Lemma F_hot_warm_zero d :
  DN_count = 0 → F_hot_warm DN_count d = Raise ZeroDivisionError.
Proof. intros HDN. unfold F_hot_warm, true_div. by rewrite HDN. Qed.

Lemma F_cold_mkdict r :
  classify T r = COLD →
  F_cold (mkdict T r)
  = Ok (λ rf, set_rf_of DN_count T rf r,
        set_nrf_i (nrf_value DN_count (classify T r) r)).
Proof. intros Hc. unfold F_cold, set_rf_of, nrf_value. by rewrite Hc. Qed.

Lemma F_save_dict_nrf r :
  F_save T start_time end_time (dict_nrf DN_count T r)
  = Ok (λ rf, rf,
        set_saved (nrf_value DN_count (classify T r) r =? 1) T
          start_time end_time).
Proof. done. Qed.

Lemma hot_warm_loop HD WD rs s :
  NoDup (HD ++ WD) →
  cells (heap s) (HD ++ WD) (mkdict T <$> rs) →
  Forall (λ r, classify T r ≠ COLD) rs →
  DN_count ≠ 0 ∨ rs = [] →
  ∃ h', calculate_new_rf_for_hot_warm DN_count HD WD s
        = (Ok (), {| current_rf := foldl (set_rf_of DN_count T) (current_rf s) rs;
                     heap := h'; disk := disk s |})
        ∧ cells h' (HD ++ WD) (dict_nrf DN_count T <$> rs)
        ∧ (∀ b, b ∉ HD ++ WD → h' !! b = heap s !! b).
Proof.
  intros Hnd Hc Hcl HDN. unfold calculate_new_rf_for_hot_warm.
  set (l := HD ++ WD) in *.
  assert (Forall (λ r, DN_count ≠ 0 ∧ classify T r ≠ COLD) rs) as Hall.
  { destruct HDN as [HDN| ->]; [|constructor].
    eapply Forall_impl; [exact Hcl|]. by intros r Hr. }
  match goal with |- context [for_ l ?b s] => set (body := b) end.
  destruct (for_cells_ok (F_hot_warm DN_count) body) with (s := s) (l := l)
    (ds := mkdict T <$> rs) as (h' & Hrun & Hcells & Hframe);
    [|exact Hnd|exact Hc| |].
  - intros a s0 d Ha. unfold body. rewrite bind_unfold. unfold deref.
    rewrite Ha. unfold F_hot_warm. rewrite bind_unfold. unfold lift.
    by destruct (true_div _ _).
  - apply Forall_fmap. eapply Forall_impl; [exact Hall|].
    intros r [H1 H2]. simpl. by rewrite F_hot_warm_mkdict.
  - exists h'. split; [|split; [|done]].
    + rewrite Hrun. do 3 f_equal. apply foldl_cell_rf.
      eapply Forall_impl; [exact Hall|]. intros r [H1 H2] rf'.
      unfold cell_rf. by rewrite F_hot_warm_mkdict.
    + erewrite <-fmap_cell_upd; [exact Hcells|].
      eapply Forall_impl; [exact Hall|]. intros r [H1 H2].
      unfold cell_upd. by rewrite F_hot_warm_mkdict.
Qed.

Lemma hot_warm_zero HD WD d ds s :
  DN_count = 0 →
  cells (heap s) (HD ++ WD) (d :: ds) →
  calculate_new_rf_for_hot_warm DN_count HD WD s = (Raise ZeroDivisionError, s).
Proof.
  intros HDN Hc. unfold calculate_new_rf_for_hot_warm.
  apply Forall2_cons_inv_r in Hc as (a & l & Ha & _ & ->).
  match goal with |- context [for_ (a :: l) ?b s] => set (body := b) end.
  apply (for_cells_raise (F_hot_warm DN_count) body) with (d := d);
    [|done|by apply F_hot_warm_zero].
  intros a0 s0 d0 Ha0. unfold body. rewrite bind_unfold. unfold deref.
  rewrite Ha0. unfold F_hot_warm. rewrite bind_unfold. unfold lift.
  by destruct (true_div _ _).
Qed.

Lemma cold_loop l rs s :
  NoDup l →
  cells (heap s) l (mkdict T <$> rs) →
  Forall (λ r, classify T r = COLD) rs →
  ∃ h', process_cold_data l s
        = (Ok (), {| current_rf := foldl (set_rf_of DN_count T) (current_rf s) rs;
                     heap := h'; disk := disk s |})
        ∧ cells h' l (dict_nrf DN_count T <$> rs)
        ∧ (∀ b, b ∉ l → h' !! b = heap s !! b).
Proof.
  intros Hnd Hc Hall. unfold process_cold_data.
  match goal with |- context [for_ l ?b s] => set (body := b) end.
  destruct (for_cells_ok F_cold body) with (s := s) (l := l)
    (ds := mkdict T <$> rs) as (h' & Hrun & Hcells & Hframe);
    [|exact Hnd|exact Hc| |].
  - intros a s0 d Ha. unfold body. rewrite bind_unfold. unfold deref.
    by rewrite Ha.
  - apply Forall_fmap. eapply Forall_impl; [exact Hall|]. by intros r Hr.
  - exists h'. split; [|split; [|done]].
    + rewrite Hrun. do 3 f_equal. apply foldl_cell_rf.
      eapply Forall_impl; [exact Hall|]. intros r Hr rf'.
      unfold cell_rf. by rewrite F_cold_mkdict.
    + erewrite <-fmap_cell_upd; [exact Hcells|].
      eapply Forall_impl; [exact Hall|]. intros r Hr.
      unfold cell_upd. by rewrite F_cold_mkdict.
Qed.

Lemma save_loop l rs s :
  NoDup l →
  cells (heap s) l (dict_nrf DN_count T <$> rs) →
  ∃ h', for_ l (λ file_data,
          d ← deref file_data;
          nrf_i ← lift (getitem "nrf_i" (nrf_i d));
          update file_data
            (set_saved (nrf_i =? 1) T start_time end_time)) s
        = (Ok (), {| current_rf := current_rf s; heap := h';
                     disk := disk s |})
        ∧ cells h' l (final_dict DN_count T start_time end_time <$> rs).
Proof.
  intros Hnd Hc.
  match goal with |- context [for_ l ?b s] => set (body := b) end.
  destruct (for_cells_ok (F_save T start_time end_time) body) with
    (s := s) (l := l)
    (ds := dict_nrf DN_count T <$> rs) as (h' & Hrun & Hcells & Hframe);
    [|exact Hnd|exact Hc| |].
  - intros a s0 d Ha. unfold body. rewrite bind_unfold. unfold deref.
    rewrite Ha.
    unfold F_save. rewrite bind_unfold. unfold lift.
    by destruct (getitem _ _).
  - apply Forall_fmap. by apply Forall_true.
  - exists h'. split.
    + rewrite Hrun. do 3 f_equal. rewrite foldl_cell_rf with (g := λ rf _, rf).
      * clear. induction rs as [|r t IH]; [done|]. simpl. exact IH.
      * by apply Forall_true.
    + erewrite <-fmap_cell_upd; [exact Hcells|]. by apply Forall_true.
Qed.
End update_facts.

(** * Threshold, rows and saving of one interval *)

Lemma calculate_threshold_value ms DN_count :
  ms ≠ [] → calculate_threshold ms DN_count = Ok (threshold_value ms DN_count).
Proof. by destruct ms. Qed.

Lemma interval_metrics_nil DN_count rf L :
  interval_metrics DN_count rf L = [] ↔ L = [].
Proof.
  unfold interval_metrics. split.
  - intros H%fmap_nil_inv%unique_nil_inv. by apply fmap_nil_inv in H.
  - by intros ->.
Qed.

Lemma for_rows_spec DN_count T start_time end_time l rs : ∀ acc s,
  cells (heap s) l (final_dict DN_count T start_time end_time <$> rs) →
  for_rows l acc s
  = (Ok (acc ++ (final_row DN_count T start_time end_time <$> rs)), s).
Proof.
  revert rs. induction l as [|a l IH]; intros rs acc s Hc.
  - apply Forall2_nil_inv_l, fmap_nil_inv in Hc as ->.
    simpl. by rewrite app_nil_r.
  - apply Forall2_cons_inv_l in Hc as (d & ds' & Ha & Hc & Heq).
    destruct rs as [|r rs]; [done|]. simpl in Heq.
    injection Heq as <- <-.
    cbn [for_rows]. rewrite bind_unfold. unfold deref. rewrite Ha.
    rewrite bind_unfold. unfold lift.
    change (select_columns (final_dict DN_count T start_time end_time r))
      with (Ok (final_row DN_count T start_time end_time r)).
    cbv iota beta. rewrite (IH rs) by done. by rewrite <-app_assoc.
Qed.

Lemma save_interval_results_spec DN_count T idx start_time end_time HD WD CD rs s :
  NoDup (HD ++ WD ++ CD) →
  cells (heap s) (HD ++ WD ++ CD) (dict_nrf DN_count T <$> rs) →
  rs ≠ [] →
  ∃ h', save_interval_results idx start_time end_time HD WD CD T s
        = (Ok (), {| current_rf := current_rf s; heap := h';
                     disk := disk s ++
                       [(idx, sort_values
                                (final_row DN_count T start_time end_time <$> rs))] |}).
Proof.
  intros Hnd Hc Hne. unfold save_interval_results.
  destruct (save_loop DN_count T start_time end_time _ _ _ Hnd Hc)
    as (h' & Hrun & Hcells).
  exists h'. rewrite bind_unfold, Hrun. rewrite bind_unfold.
  erewrite for_rows_spec by exact Hcells. cbn [app].
  rewrite bind_unfold. rewrite bool_decide_eq_false_2.
  - done.
  - intros Hnil%fmap_nil_inv. done.
Qed.

(** * [run_interval] computes [interval_rows] and [interval_rf] *)

Lemma elem_of_of_class T c ms r : r ∈ of_class T c ms ↔ classify T r = c ∧ r ∈ ms.
Proof. unfold of_class. by rewrite list_elem_of_filter. Qed.

Section run_interval_facts.
Variable DN_count : Z.
Variable df : list AccessEvent.
Variable idx : nat.
Variables start_time end_time : Z.
Variable s : state.

Let L := read_logfile df start_time end_time.
Let ms := interval_metrics DN_count (current_rf s) L.
Let T := threshold_value ms DN_count.
Let base := length (heap s).
Let HD := select HOT T base ms.
Let WD := select WARM T base ms.
Let CD := select COLD T base ms.
Let s2 : state :=
  {| current_rf := seed L (current_rf s) (unique (filename <$> L));
     heap := heap s ++ (mkdict T <$> ms); disk := disk s |}.

Lemma run_interval_prefix :
  L ≠ [] →
  run_interval DN_count df idx start_time end_time s
  = (calculate_new_rf_for_hot_warm DN_count HD WD;;
     process_cold_data CD;;
     save_interval_results idx start_time end_time HD WD CD T) s2.
Proof.
  intros HL. unfold run_interval. fold L.
  rewrite bind_unfold, process_files_spec.
  change (metrics_of DN_count (current_rf s) L <$> unique (filename <$> L))
    with ms.
  assert (ms ≠ []) as Hms by (unfold ms; by rewrite interval_metrics_nil).
  rewrite bind_unfold. unfold lift.
  rewrite calculate_threshold_value by done.
  fold T. rewrite bind_unfold, classify_files_spec. done.
Qed.

Lemma run_interval_empty :
  L = [] →
  run_interval DN_count df idx start_time end_time s
  = (Raise (KeyError "PD_i"), s).
Proof.
  intros HL. unfold run_interval. fold L. rewrite HL.
  rewrite bind_unfold, process_files_spec. simpl. by rewrite state_eta.
Qed.

Lemma cells_s2 c : cells (heap s2) (select c T base ms) (mkdict T <$> of_class T c ms).
Proof.
  apply cells_select. intros i r Hi. simpl. unfold base.
  rewrite lookup_app_r by lia.
  replace (length (heap s) + i - length (heap s))%nat with i by lia.
  by rewrite list_lookup_fmap, Hi.
Qed.

Lemma NoDup_HD_WD : NoDup (HD ++ WD).
Proof.
  pose proof (NoDup_select_all T ms base) as Hnd.
  rewrite app_assoc in Hnd. by apply NoDup_app in Hnd as [? _].
Qed.

Lemma run_interval_ok :
  interval_ok DN_count (current_rf s) L →
  ∃ h', run_interval DN_count df idx start_time end_time s
        = (Ok (), {| current_rf := interval_rf DN_count (current_rf s) L;
                     heap := h';
                     disk := disk s ++
                       [(idx, interval_rows DN_count (current_rf s) L
                                start_time end_time)] |}).
Proof.
  intros [HL HDN]. rewrite run_interval_prefix by done.
  pose proof (NoDup_select_all T ms base) as Hnd. fold HD WD CD in Hnd.
  (* hot and warm rows *)
  destruct (hot_warm_loop DN_count T HD WD
              (of_class T HOT ms ++ of_class T WARM ms) s2)
    as (h3 & Hrun3 & Hc3 & Hf3).
  { apply NoDup_HD_WD. }
  { rewrite fmap_app. apply cells_app; apply cells_s2. }
  { apply Forall_forall. intros r [[Hc _]%elem_of_of_class|[Hc _]%elem_of_of_class]%elem_of_app;
      by rewrite Hc. }
  { destruct HDN as [?|Hnil]; [by left|by right]. }
  rewrite bind_unfold, Hrun3.
  set (s3 := {| current_rf := _; heap := h3; disk := _ |}).
  (* cold rows *)
  destruct (cold_loop DN_count T CD (of_class T COLD ms) s3)
    as (h4 & Hrun4 & Hc4 & Hf4).
  { rewrite app_assoc in Hnd. by apply NoDup_app in Hnd as (_ & _ & ?). }
  { apply cells_frame with (h := heap s2); [|apply cells_s2].
    intros b Hb. simpl. apply Hf3. intros Hb'.
    rewrite app_assoc in Hnd. apply NoDup_app in Hnd as (_ & Hdisj & _).
    by apply (Hdisj b). }
  { apply Forall_forall. by intros r [Hc _]%elem_of_of_class. }
  rewrite bind_unfold, Hrun4.
  set (s4 := {| current_rf := _; heap := h4; disk := _ |}).
  (* saving *)
  destruct (save_interval_results_spec DN_count T idx start_time end_time
              HD WD CD (by_class T ms) s4) as (h5 & Hrun5).
  { done. }
  { unfold by_class.
    rewrite (app_assoc HD), (app_assoc (of_class T HOT ms)), fmap_app.
    apply cells_app; [|done].
    apply cells_frame with (h := h3); [|done].
    intros b Hb. simpl. apply Hf4. intros Hb'.
    rewrite app_assoc in Hnd. apply NoDup_app in Hnd as (_ & Hdisj & _).
    by apply (Hdisj b). }
  { assert (ms ≠ []) as Hms by (unfold ms; by rewrite interval_metrics_nil).
    destruct ms as [|r t] eqn:Hmseq; [done|]. intros Hnil.
    assert (r ∈ by_class T (r :: t)) as Hin.
    { unfold by_class. rewrite !elem_of_app, !elem_of_of_class.
      destruct (classify T r) eqn:Hc; [left|right; left|right; right];
        (split; [done|by left]). }
    rewrite Hnil in Hin. by apply not_elem_of_nil in Hin. }
  exists h5. rewrite Hrun5. simpl. do 3 f_equal.
  unfold interval_rf. fold ms T. unfold by_class.
  by rewrite (app_assoc (of_class T HOT ms)), (foldl_app _ (_ ++ _)).
Qed.
Lemma run_interval_zero :
  L ≠ [] → DN_count = 0 →
  of_class T HOT ms ++ of_class T WARM ms ≠ [] →
  run_interval DN_count df idx start_time end_time s
  = (Raise ZeroDivisionError, s2).
Proof.
  intros HL HDN Hne. rewrite run_interval_prefix by done.
  rewrite bind_unfold.
  destruct (of_class T HOT ms ++ of_class T WARM ms) as [|r rs] eqn:Hrs;
    [done|].
  erewrite (hot_warm_zero DN_count HD WD (mkdict T r) (mkdict T <$> rs));
    [done|done|].
  change (mkdict T r :: (mkdict T <$> rs)) with (mkdict T <$> r :: rs).
  rewrite <-Hrs, fmap_app. apply cells_app; apply cells_s2.
Qed.

(** An interval either completes, or raises and writes no file. *)
Lemma run_interval_raise :
  ¬ interval_ok DN_count (current_rf s) L →
  ∃ e s', run_interval DN_count df idx start_time end_time s = (Raise e, s')
          ∧ disk s' = disk s
          ∧ (L = [] → e = KeyError "PD_i" ∧ s' = s)
          ∧ (L ≠ [] → e = ZeroDivisionError ∧ DN_count = 0).
Proof.
  intros Hnot. destruct (decide (L = [])) as [HL|HL].
  - exists (KeyError "PD_i"), s. rewrite run_interval_empty by done.
    repeat split; done.
  - assert (DN_count = 0 ∧ of_class T HOT ms ++ of_class T WARM ms ≠ [])
      as [HDN Hne].
    { unfold interval_ok in Hnot. fold ms T in Hnot.
      destruct (decide (DN_count = 0)) as [?|?]; [|exfalso; tauto].
      split; [done|]. intros Hnil. apply Hnot. tauto. }
    exists ZeroDivisionError, s2. rewrite run_interval_zero by done.
    repeat split; done.
Qed.
End run_interval_facts.

(** * The run computes [run_rows] *)

Lemma run_loop_spec DN_count df time_interval : ∀ idx s,
  ∃ out s',
    run_loop DN_count df idx time_interval s = (out, s')
    ∧ disk s' = disk s ++ imap (λ i rows, ((idx + i)%nat, rows))
                            (run_rows DN_count df (current_rf s) time_interval)
    ∧ (out = Ok () ↔
       length (run_rows DN_count df (current_rf s) time_interval)
       = length time_interval).
Proof.
  induction time_interval as [|[start_time end_time] rest IH]; intros idx s.
  - exists (Ok ()), s. simpl. by rewrite app_nil_r.
  - cbn [run_loop run_rows]. rewrite bind_unfold.
    destruct (decide (interval_ok _ _ _)) as [Hok|Hnot].
    + destruct (run_interval_ok DN_count df idx start_time end_time s Hok)
        as (h' & ->).
      set (s1 := {| current_rf := _; heap := h'; disk := _ |}).
      destruct (IH (S idx) s1) as (out & s' & Hrun & Hdisk & Hout).
      exists out, s'. split; [done|]. split.
      * rewrite Hdisk. simpl. rewrite <-app_assoc. simpl.
        rewrite Nat.add_0_r. do 2 f_equal. apply imap_ext.
        intros i rows _. simpl. f_equal. lia.
      * rewrite Hout. simpl. lia.
    + destruct (run_interval_raise DN_count df idx start_time end_time s Hnot)
        as (e & s' & -> & Hdisk & _).
      exists (Raise e), s'. split; [done|]. split.
      * simpl. by rewrite app_nil_r.
      * simpl. split; [done|lia].
Qed.

(** A run returns whenever [set_time_interval] does, and its result files
    are the tables of [run_rows], numbered from 1. *)
Lemma run_spec DN_count df time_interval :
  set_time_interval df = Some time_interval →
  ∃ out s,
    run DN_count df = Some (out, s)
    ∧ disk s = imap (λ i rows, (S i, rows)) (run_rows DN_count df ∅ time_interval)
    ∧ (out = Ok () ↔
       length (run_rows DN_count df ∅ time_interval) = length time_interval).
Proof.
  intros Hiv. unfold run. rewrite Hiv.
  destruct (run_loop_spec DN_count df time_interval 1 init)
    as (out & s & Hrun & Hdisk & Hout).
  exists out, s. by rewrite Hrun.
Qed.

(** * The time intervals *)

Lemma interval_duration_pos : 0 < interval_duration.
Proof. by vm_compute. Qed.

#[local] Opaque interval_duration.

Lemma interval_count_done current max_time :
  max_time ≤ current → interval_count current max_time = 0%nat.
Proof.
  intros Hle. unfold interval_count. pose proof interval_duration_pos as HD.
  assert ((max_time - current + interval_duration - 1) / interval_duration ≤ 0);
    [|lia].
  apply Z.lt_succ_r. apply Z.div_lt_upper_bound; lia.
Qed.

Lemma interval_count_step current max_time :
  current < max_time →
  interval_count current max_time
  = S (interval_count (current + interval_duration) max_time).
Proof.
  intros Hlt. unfold interval_count. pose proof interval_duration_pos as HD.
  replace (max_time - current + interval_duration - 1)
    with ((max_time - (current + interval_duration) + interval_duration - 1)
          + 1 * interval_duration) by lia.
  rewrite Z.div_add by lia.
  rewrite Z2Nat.inj_add; [simpl; lia| |lia].
  apply Z.div_pos; lia.
Qed.

Lemma nth_interval_shift current i :
  nth_interval current (S i) = nth_interval (current + interval_duration) i.
Proof.
  unfold nth_interval.
  replace (current + Z.of_nat (S i) * interval_duration)
    with (current + interval_duration + Z.of_nat i * interval_duration) by lia.
  replace (current + (Z.of_nat (S i) + 1) * interval_duration)
    with (current + interval_duration + (Z.of_nat i + 1) * interval_duration)
    by lia.
  done.
Qed.

Lemma while_loop_spec max_time : ∀ fuel current intervals,
  (Z.to_nat ((max_time - current) / interval_duration + 1) ≤ fuel)%nat →
  while_loop fuel current max_time intervals
  = Some (intervals ++
          (nth_interval current <$> seq 0 (interval_count current max_time))).
Proof.
  pose proof interval_duration_pos as HD.
  induction fuel as [|fuel IH]; intros current intervals Hfuel.
  - destruct (Z.ltb_spec current max_time) as [Hlt|Hge].
    + exfalso.
      assert (0 ≤ (max_time - current) / interval_duration)
        by (apply Z.div_pos; lia). lia.
    + simpl. rewrite (proj2 (Z.ltb_ge _ _)) by done.
      by rewrite interval_count_done, app_nil_r.
  - cbn [while_loop]. destruct (Z.ltb_spec current max_time) as [Hlt|Hge].
    + rewrite IH.
      * rewrite (interval_count_step current max_time Hlt).
        cbn [seq fmap list_fmap]. rewrite <-app_assoc. cbn [app].
        assert (nth_interval current 0 = (current, current + interval_duration))
          as ->.
        { unfold nth_interval. change (Z.of_nat 0) with 0.
          by rewrite Z.mul_0_l, Z.add_0_r, Z.add_0_l, Z.mul_1_l. }
        assert (nth_interval current <$> seq 1 (interval_count
                  (current + interval_duration) max_time)
                = nth_interval (current + interval_duration) <$> seq 0
                    (interval_count (current + interval_duration) max_time))
          as ->; [|done].
        rewrite <-fmap_S_seq, <-list_fmap_compose.
        apply list_fmap_ext. intros i n _.
        apply nth_interval_shift.
      * replace (max_time - (current + interval_duration))
          with ((max_time - current) + (-1) * interval_duration) by lia.
        rewrite Z.div_add by lia.
        assert (0 ≤ (max_time - current) / interval_duration)
          by (apply Z.div_pos; lia). lia.
    + by rewrite interval_count_done, app_nil_r.
Qed.

(** [set_time_interval] always returns, with the intervals
    [[min_time + i*D, min_time + (i+1)*D)] for [i] below [interval_count]. *)
Lemma set_time_interval_spec df min_time max_time :
  series_min (timestamp <$> df) = Some min_time →
  series_max (timestamp <$> df) = Some max_time →
  set_time_interval df
  = Some (nth_interval min_time <$> seq 0 (interval_count min_time max_time)).
Proof.
  intros Hmin Hmax. unfold set_time_interval. rewrite Hmin, Hmax.
  by rewrite while_loop_spec.
Qed.

Lemma set_time_interval_total df : ∃ l, set_time_interval df = Some l.
Proof.
  destruct (series_min (timestamp <$> df)) as [min_time|] eqn:Hmin;
    destruct (series_max (timestamp <$> df)) as [max_time|] eqn:Hmax.
  - eexists. by apply set_time_interval_spec.
  - destruct df; done.
  - destruct df; done.
  - exists []. unfold set_time_interval. by rewrite Hmin.
Qed.

Lemma run_total DN_count df : ∃ out s, run DN_count df = Some (out, s).
Proof.
  destruct (set_time_interval_total df) as [l Hl].
  destruct (run_spec DN_count df l Hl) as (out & s & Hrun & _).
  by exists out, s.
Qed.

#[local] Transparent interval_duration.

(** * Popularity degree *)




(** * Classification *)

Lemma decision_table_functional t PD w c c' :
  decision_table t PD w c → decision_table t PD w c' → c = c'.
Proof.
  assert (∀ x y : Q, (x <= y)%Q → (y < x)%Q → False) as Hord.
  { intros x y H1 H2. by apply Qle_not_lt in H1. }
  assert (w ∈ [3; 4] → w ∈ [1; 2] → False) as Hw.
  { rewrite !elem_of_cons, !elem_of_nil. lia. }
  unfold decision_table.
  intros [(?&?&->)|[(?&?&->)|[(?&?&->)|(?&?&->)]]]
         [(?&?&->)|[(?&?&->)|[(?&?&->)|(?&?&->)]]];
    try done; exfalso; eauto.
Qed.

Lemma classify_decision_table t r :
  w_i r ∈ [1; 2; 3; 4] → decision_table t (PD_i r) (w_i r) (classify (Fin t) r).
Proof.
  intros Hw. unfold decision_table, classify, float_ge, float_lt.
  assert (w_i r ∈ [3; 4] ∨ w_i r ∈ [1; 2]) as Hcase.
  { revert Hw. rewrite !elem_of_cons, !elem_of_nil. lia. }
  destruct (Qle_bool t (PD_i r)) eqn:Hle.
  - apply Qle_bool_iff in Hle. simpl.
    destruct Hcase as [H34|H12].
    + rewrite (bool_decide_eq_true_2 _ H34). by left.
    + destruct (bool_decide (w_i r ∈ [3; 4])) eqn:H34.
      * apply bool_decide_eq_true_1 in H34. by left.
      * rewrite (bool_decide_eq_true_2 _ H12). right. by left.
  - assert (PD_i r < t)%Q as Hlt.
    { apply Qnot_le_lt. intros H%Qle_bool_iff. congruence. }
    simpl. destruct Hcase as [H34|H12].
    + rewrite (bool_decide_eq_true_2 _ H34). right. right. by left.
    + destruct (bool_decide (w_i r ∈ [3; 4])) eqn:H34.
      * apply bool_decide_eq_true_1 in H34. right. right. by left.
      * right. right. by right.
Qed.

Lemma by_class_perm T ms : by_class T ms ≡ₚ ms.
Proof.
  unfold by_class, of_class. induction ms as [|r t IH]; [done|].
  rewrite !filter_cons.
  destruct (classify T r) eqn:Hc;
    repeat (first [rewrite decide_True by done | rewrite decide_False by done]).
  - simpl. by constructor.
  - simpl. rewrite <-Permutation_middle. by constructor.
  - rewrite app_assoc, <-Permutation_middle, <-app_assoc. by constructor.
Qed.

Lemma of_class_lengths T ms :
  (length (of_class T HOT ms) + length (of_class T WARM ms)
   + length (of_class T COLD ms) = length ms)%nat.
Proof.
  rewrite <-(Permutation_length (by_class_perm T ms)).
  unfold by_class. rewrite !length_app. lia.
Qed.

(** C7: for every list of metrics rows (each with a weight in 1..4) and
    every finite threshold [t], [classify_files] returns three lists of
    dictionaries [HD], [WD], [CD]: every dictionary carries the class that
    the decision table gives its row, and no other class satisfies the
    table; the dictionaries of [HD] are HOT, of [WD] WARM, of [CD] COLD;
    the three lists share no object and no row, their rows are the input
    rows, and their lengths add up to the number of input rows. *)
Theorem classify_files_partition (ms : list FileMetrics) (t : Q) (s : state) :
  Forall (λ r, w_i r ∈ [1; 2; 3; 4]) ms →
  ∃ HD WD CD s' dH dW dC,
    classify_files ms (Fin t) s = (Ok (HD, WD, CD), s')
    ∧ cells (heap s') HD dH ∧ cells (heap s') WD dW ∧ cells (heap s') CD dC
    ∧ Forall (λ d, classification d = Some HOT) dH
    ∧ Forall (λ d, classification d = Some WARM) dW
    ∧ Forall (λ d, classification d = Some COLD) dC
    ∧ Forall (λ d, ∃ c, classification d = Some c
                        ∧ decision_table t (PD_i (row d)) (w_i (row d)) c
                        ∧ ∀ c', decision_table t (PD_i (row d)) (w_i (row d)) c'
                                → c' = c)
        (dH ++ dW ++ dC)
    ∧ ((row <$> dH) ++ (row <$> dW) ++ (row <$> dC)) ≡ₚ ms
    ∧ NoDup (HD ++ WD ++ CD)
    ∧ (∀ r, r ∈ row <$> dH → (r ∉ row <$> dW) ∧ (r ∉ row <$> dC))
    ∧ (∀ r, r ∈ row <$> dW → r ∉ (row <$> dC))
    ∧ (length HD + length WD + length CD = length ms)%nat.
Proof.
  intros Hw. set (T := Fin t).
  exists (select HOT T (length (heap s)) ms), (select WARM T (length (heap s)) ms),
    (select COLD T (length (heap s)) ms).
  eexists. exists (mkdict T <$> of_class T HOT ms),
    (mkdict T <$> of_class T WARM ms), (mkdict T <$> of_class T COLD ms).
  split; [apply classify_files_spec|].
  assert (∀ c, cells (heap s ++ (mkdict T <$> ms)) (select c T (length (heap s)) ms)
                 (mkdict T <$> of_class T c ms)) as Hcells.
  { intros c. apply cells_select. intros i r Hi.
    rewrite lookup_app_r by lia.
    replace (length (heap s) + i - length (heap s))%nat with i by lia.
    by rewrite list_lookup_fmap, Hi. }
  assert (∀ c, Forall (λ d, classification d = Some c)
                 (mkdict T <$> of_class T c ms)) as Hclass.
  { intros c. apply Forall_fmap, Forall_forall.
    intros r [Hc _]%elem_of_of_class. simpl. by rewrite Hc. }
  assert (∀ c, row <$> (mkdict T <$> of_class T c ms) = of_class T c ms) as Hrow.
  { intros c. rewrite <-list_fmap_compose. apply list_fmap_id. }
  split; [apply Hcells|]. split; [apply Hcells|]. split; [apply Hcells|].
  split; [apply Hclass|]. split; [apply Hclass|]. split; [apply Hclass|].
  split.
  { rewrite <-!fmap_app. apply Forall_fmap, Forall_forall. intros r Hr.
    assert (r ∈ ms) as Hin by (by rewrite <-(by_class_perm T ms)).
    pose proof (proj1 (Forall_forall _ _) Hw r Hin) as Hwr.
    exists (classify T r). split; [done|]. simpl.
    split; [by apply classify_decision_table|].
    intros c' Hc'. eapply decision_table_functional; [exact Hc'|].
    by apply classify_decision_table. }
  rewrite !Hrow. split; [apply by_class_perm|].
  split; [apply NoDup_select_all|].
  split.
  { intros r [Hc _]%elem_of_of_class.
    split; intros [Hc' _]%elem_of_of_class; congruence. }
  split.
  { intros r [Hc _]%elem_of_of_class [Hc' _]%elem_of_of_class; congruence. }
  rewrite <-(of_class_lengths T ms).
  pose proof (Hcells HOT) as H1. pose proof (Hcells WARM) as H2.
  pose proof (Hcells COLD) as H3.
  apply Forall2_length in H1, H2, H3. rewrite length_fmap in H1, H2, H3. lia.
Qed.

Lemma classify_files_partition_witness :
  ∃ HD WD CD s',
    classify_files [example_F; example_G] (Fin 40) init = (Ok (HD, WD, CD), s')
    ∧ (length HD + length WD + length CD = 2)%nat.
Proof.
  destruct (classify_files_partition [example_F; example_G] 40 init)
    as (HD & WD & CD & s' & dH & dW & dC & Hrun & H).
  - repeat constructor; simpl; rewrite !elem_of_cons; lia.
  - exists HD, WD, CD, s'. split; [exact Hrun|]. apply H.
Defined.

(** * Facts about the result of an interval *)

Lemma sort_insert_perm r l : sort_insert r l ≡ₚ r :: l.
Proof.
  induction l as [|x t IH]; [done|]. simpl.
  destruct (row_leb r x); [done|]. rewrite IH. apply Permutation_swap.
Qed.

Lemma sort_values_perm l : sort_values l ≡ₚ l.
Proof.
  induction l as [|x t IH]; [done|]. simpl.
  rewrite sort_insert_perm. by constructor.
Qed.

Lemma fname_interval_metrics DN_count rf L :
  fname <$> interval_metrics DN_count rf L = unique (filename <$> L).
Proof.
  unfold interval_metrics. rewrite <-list_fmap_compose. apply list_fmap_id.
Qed.

Lemma elem_of_interval_metrics DN_count rf L m :
  m ∈ interval_metrics DN_count rf L ↔
  fname m ∈ filename <$> L ∧ m = metrics_of DN_count rf L (fname m).
Proof.
  unfold interval_metrics. rewrite list_elem_of_fmap. split.
  - intros (name & -> & Hin). rewrite elem_of_unique in Hin.
    split; [exact Hin|reflexivity].
  - intros [Hin Heq]. exists (fname m). by rewrite elem_of_unique.
Qed.

Lemma elem_of_interval_rows DN_count rf L start_time end_time r :
  r ∈ interval_rows DN_count rf L start_time end_time ↔
  ∃ m, m ∈ interval_metrics DN_count rf L
       ∧ r = final_row DN_count
               (threshold_value (interval_metrics DN_count rf L) DN_count)
               start_time end_time m.
Proof.
  unfold interval_rows. cbv zeta.
  rewrite (elem_of_Permutation_proper r _ _ (sort_values_perm _)).
  rewrite (list_elem_of_fmap (final_row _ _ _ _)).
  split.
  - intros (m & -> & Hm). exists m. split; [|done].
    by rewrite (by_class_perm _ _) in Hm.
  - intros (m & Hm & ->). exists m. split; [done|].
    by rewrite (by_class_perm _ _).
Qed.

Lemma NoDup_fname_by_class DN_count rf L T :
  NoDup (fname <$> by_class T (interval_metrics DN_count rf L)).
Proof.
  rewrite (by_class_perm T), fname_interval_metrics. apply NoDup_unique.
Qed.

Lemma foldl_set_rf_of_notin DN_count T rs : ∀ rf f,
  f ∉ fname <$> rs → foldl (set_rf_of DN_count T) rf rs !! f = rf !! f.
Proof.
  induction rs as [|r t IH]; intros rf f Hf; [done|]. simpl.
  rewrite fmap_cons, not_elem_of_cons in Hf. destruct Hf as [Hne Hf].
  rewrite IH by done. unfold set_rf_of. by rewrite lookup_insert_ne.
Qed.

Lemma foldl_set_rf_of_in DN_count T rs : ∀ rf m,
  NoDup (fname <$> rs) → m ∈ rs →
  foldl (set_rf_of DN_count T) rf rs !! fname m
  = Some (nrf_value DN_count (classify T m) m).
Proof.
  induction rs as [|r t IH]; intros rf m Hnd Hm.
  - by apply not_elem_of_nil in Hm.
  - rewrite fmap_cons in Hnd. apply NoDup_cons in Hnd as [Hfresh Hnd].
    simpl. apply elem_of_cons in Hm as [->|Hm].
    + rewrite foldl_set_rf_of_notin by done.
      unfold set_rf_of. by rewrite lookup_insert_eq.
    + by apply IH.
Qed.

Lemma seed_notin L names : ∀ rf f,
  f ∉ names → seed L rf names !! f = rf !! f.
Proof.
  unfold seed. induction names as [|n t IH]; intros rf f Hf; [done|]. simpl.
  apply not_elem_of_cons in Hf as [Hne Hf]. rewrite IH by done.
  unfold seed_one. destruct (rf !! n); [done|]. by rewrite lookup_insert_ne.
Qed.

(** After an interval, a file of the window holds its new factor; any other
    entry of [current_rf] is as before. *)
Lemma interval_rf_in DN_count rf L m :
  m ∈ interval_metrics DN_count rf L →
  interval_rf DN_count rf L !! fname m
  = Some (nrf_value DN_count
            (classify (threshold_value (interval_metrics DN_count rf L) DN_count) m)
            m).
Proof.
  intros Hm. unfold interval_rf. apply foldl_set_rf_of_in.
  - apply NoDup_fname_by_class.
  - by rewrite (by_class_perm _ _).
Qed.

Lemma interval_rf_notin DN_count rf L f :
  f ∉ filename <$> L → interval_rf DN_count rf L !! f = rf !! f.
Proof.
  intros Hf. unfold interval_rf.
  rewrite foldl_set_rf_of_notin.
  - apply seed_notin. by rewrite elem_of_unique.
  - rewrite (by_class_perm _ _), fname_interval_metrics. by rewrite elem_of_unique.
Qed.

(** What a completed interval did. *)
Lemma run_interval_inv DN_count df idx start_time end_time s s' :
  run_interval DN_count df idx start_time end_time s = (Ok (), s') →
  let L := read_logfile df start_time end_time in
  interval_ok DN_count (current_rf s) L
  ∧ current_rf s' = interval_rf DN_count (current_rf s) L
  ∧ disk s' = disk s ++
       [(idx, interval_rows DN_count (current_rf s) L start_time end_time)].
Proof.
  intros Hrun L.
  destruct (decide (interval_ok DN_count (current_rf s) L)) as [Hok|Hnot].
  - destruct (run_interval_ok DN_count df idx start_time end_time s Hok)
      as (h' & Heq).
    rewrite Heq in Hrun. injection Hrun as <-. done.
  - destruct (run_interval_raise DN_count df idx start_time end_time s Hnot)
      as (e & s'' & Heq & _).
    rewrite Heq in Hrun. done.
Qed.

Lemma elem_of_run_rows DN_count df time_interval : ∀ rf rows,
  rows ∈ run_rows DN_count df rf time_interval →
  ∃ rf' start_time end_time,
    (start_time, end_time) ∈ time_interval
    ∧ interval_ok DN_count rf' (read_logfile df start_time end_time)
    ∧ rows = interval_rows DN_count rf' (read_logfile df start_time end_time)
               start_time end_time.
Proof.
  induction time_interval as [|[st en] rest IH]; intros rf rows Hin; simpl in Hin.
  - by apply not_elem_of_nil in Hin.
  - destruct (decide (interval_ok _ _ _)) as [Hok|Hnot];
      [|by apply not_elem_of_nil in Hin].
    apply elem_of_cons in Hin as [->|Hin].
    + exists rf, st, en. split; [by left|done].
    + destruct (IH _ _ Hin) as (rf' & st' & en' & Hiv & H).
      exists rf', st', en'. split; [by right|done].
Qed.

Lemma elem_of_imap_pair {A} (l : list A) (k : nat) i x :
  (i, x) ∈ imap (λ j y, ((k + j)%nat, y)) l ↔
  ∃ j, i = (k + j)%nat ∧ l !! j = Some x.
Proof.
  rewrite list_elem_of_lookup. split.
  - intros (j & Hj). rewrite list_lookup_imap in Hj.
    destruct (l !! j) as [y|] eqn:Hy; [|done]. simpl in Hj.
    injection Hj as <- <-. by exists j.
  - intros (j & -> & Hj). exists j. by rewrite list_lookup_imap, Hj.
Qed.

(** Every result file of a run is the table of one of its intervals. *)
Lemma run_disk_rows DN_count df out s idx rows :
  run DN_count df = Some (out, s) →
  (idx, rows) ∈ disk s →
  ∃ time_interval rf start_time end_time,
    set_time_interval df = Some time_interval
    ∧ (start_time, end_time) ∈ time_interval
    ∧ interval_ok DN_count rf (read_logfile df start_time end_time)
    ∧ rows = interval_rows DN_count rf (read_logfile df start_time end_time)
               start_time end_time.
Proof.
  intros Hrun Hin.
  destruct (set_time_interval_total df) as [ivs Hivs].
  destruct (run_spec DN_count df ivs Hivs) as (out' & s' & Hrun' & Hdisk & _).
  rewrite Hrun in Hrun'. injection Hrun' as <- <-.
  rewrite Hdisk in Hin.
  apply (elem_of_imap_pair _ 1) in Hin as (j & _ & Hj).
  apply list_elem_of_lookup_2, elem_of_run_rows in Hj
    as (rf & st & en & Hiv & Hok & ->).
  by exists ivs, rf, st, en.
Qed.

(** * The worked run *)

Lemma example_first_ok : fst example_first = Ok ().
Proof. by vm_compute. Qed.

Lemma example_row_a_written :
  ∃ rows, disk (snd example_first) = [(1%nat, rows)] ∧ example_row_a ∈ rows.
Proof. eexists. split; [by vm_compute|]. by left. Qed.

(** * Erasure coding flag *)

(** C9: in every result file of a run, a row has [erasure_coding] set
    exactly when its [nrf_i] is 1; and every COLD row has [nrf_i = 1] and
    [erasure_coding] set. *)
Theorem erasure_coding_iff_nrf_1 (DN_count : Z) (df : list AccessEvent)
    (out : result unit) (s : state) (idx : nat) (rows : list ResultRow)
    (r : ResultRow) :
  run DN_count df = Some (out, s) →
  (idx, rows) ∈ disk s →
  r ∈ rows →
  (r_erasure_coding r = true ↔ r_nrf_i r = 1)
  ∧ (r_classification r = COLD → r_nrf_i r = 1 ∧ r_erasure_coding r = true).
Proof.
  intros Hrun Hdisk Hr.
  destruct (run_disk_rows _ _ _ _ _ _ Hrun Hdisk)
    as (ivs & rf & st & en & _ & _ & _ & ->).
  apply elem_of_interval_rows in Hr as (m & _ & ->). simpl. split.
  - apply Z.eqb_eq.
  - intros ->. done.
Qed.

Lemma erasure_coding_iff_nrf_1_witness :
  (r_erasure_coding example_row_a = true ↔ r_nrf_i example_row_a = 1)
  ∧ (r_classification example_row_a = COLD →
     r_nrf_i example_row_a = 1 ∧ r_erasure_coding example_row_a = true).
Proof.
  apply (erasure_coding_iff_nrf_1 10 example_log (fst example_run)
           (snd example_run) 1
           (default [] (snd <$> head (disk (snd example_run))))).
  - by vm_compute.
  - vm_compute. by left.
  - vm_compute. by left.
Defined.

(** * New replication factor of hot and warm files *)

Lemma round_tie (k : Z) :
  round (inject_Z k + (1 # 2)) = if Z.even k then k else k + 1.
Proof.
  unfold round.
  assert (Qfloor (inject_Z k + (1 # 2)) = k) as ->.
  { symmetry. apply Z.le_antisymm.
    - rewrite <-(Qfloor_Z k) at 1. apply Qfloor_resp_le.
      rewrite <-(Qplus_0_r (inject_Z k)) at 1.
      apply Qplus_le_r. done.
    - apply Z.lt_succ_r. rewrite Zlt_Qlt.
      eapply Qle_lt_trans; [apply Qfloor_le|].
      rewrite <-Z.add_1_r, inject_Z_plus. by apply Qplus_lt_r. }
  assert (inject_Z k + (1 # 2) - inject_Z k == 1 # 2)%Q as Heq by ring.
  apply Qeq_alt in Heq. by rewrite Heq.
Qed.

(** C5, as stated, fails on an exact tie: in the worked run file [a] is HOT
    with [crf_i = 5], [dnc_i = 5] and ten nodes, so the quotient is 2.5;
    the file is given 2, where rounding half up gives 3. *)
Lemma hot_row_tie_not_rounded_up :
  fst example_first = Ok ()
  ∧ (∃ rows, disk (snd example_first) = [(1%nat, rows)] ∧ example_row_a ∈ rows)
  ∧ r_classification example_row_a = HOT
  ∧ r_nrf_i example_row_a
    ≠ Z.max 1 (round_half_up
                 (inject_Z (r_crf_i example_row_a * r_dnc_i example_row_a)
                  / inject_Z 10)).
Proof.
  split; [apply example_first_ok|]. split; [apply example_row_a_written|].
  split; [done|]. by vm_compute.
Qed.

(** C5, amended: when an interval completes, every row of its result that
    is classified HOT or WARM has
    [nrf_i = max(1, round((crf_i * dnc_i) / DN_count))], where [round] is
    Python's: an exact half-way case goes to the even neighbour (not
    upward); and this value is the file's entry in [current_rf]
    afterwards. *)
Theorem hot_warm_new_rf (DN_count : Z) (df : list AccessEvent) (idx : nat)
    (start_time end_time : Z) (s s' : state) :
  run_interval DN_count df idx start_time end_time s = (Ok (), s') →
  (∃ rows,
     disk s' = disk s ++ [(idx, rows)]
     ∧ ∀ r, r ∈ rows →
         r_classification r = HOT ∨ r_classification r = WARM →
         r_nrf_i r
         = Z.max 1 (round (inject_Z (r_crf_i r * r_dnc_i r) / inject_Z DN_count))
         ∧ current_rf s' !! r_filename r = Some (r_nrf_i r))
  ∧ (∀ k : Z, round (inject_Z k + (1 # 2)) = if Z.even k then k else k + 1).
Proof.
  intros Hrun. split; [|apply round_tie].
  apply run_interval_inv in Hrun as (Hok & Hrf & Hdisk).
  eexists. split; [exact Hdisk|].
  intros r (m & Hm & ->)%elem_of_interval_rows Hclass. simpl in Hclass |- *.
  split.
  - unfold nrf_value. by destruct Hclass as [-> | ->].
  - rewrite Hrf. by apply interval_rf_in.
Qed.

Lemma hot_warm_new_rf_witness :
  (∃ rows,
     disk (snd example_first) = disk init ++ [(1%nat, rows)]
     ∧ ∀ r, r ∈ rows →
         r_classification r = HOT ∨ r_classification r = WARM →
         r_nrf_i r
         = Z.max 1 (round (inject_Z (r_crf_i r * r_dnc_i r) / inject_Z 10))
         ∧ current_rf (snd example_first) !! r_filename r = Some (r_nrf_i r))
  ∧ (∀ k : Z, round (inject_Z k + (1 # 2)) = if Z.even k then k else k + 1).
Proof.
  apply (hot_warm_new_rf 10 example_log 1 0 interval_duration init
           (snd example_first)).
  by vm_compute.
Defined.

(** * Windows and events *)

#[local] Opaque interval_duration.

Lemma series_min_spec (l : list Z) (m : Z) :
  series_min l = Some m → m ∈ l ∧ ∀ x, x ∈ l → m ≤ x.
Proof.
  destruct l as [|x t]; [done|]. simpl. intros [= <-].
  induction t as [|y t [IHin IHle]]; simpl.
  - split; [by left|]. intros z ->%list_elem_of_singleton. lia.
  - split.
    + destruct (Z.min_spec y (foldr Z.min x t)) as [[_ ->]|[_ ->]].
      * right. by left.
      * apply elem_of_cons in IHin as [Heq|Hin]; [rewrite Heq; by left|].
        right. by right.
    + intros z Hz. assert (z = y ∨ z ∈ x :: t) as [->|Hz'].
      { revert Hz. rewrite !elem_of_cons. tauto. }
      * lia.
      * specialize (IHle z Hz'). lia.
Qed.

Lemma series_max_spec (l : list Z) (m : Z) :
  series_max l = Some m → m ∈ l ∧ ∀ x, x ∈ l → x ≤ m.
Proof.
  destruct l as [|x t]; [done|]. simpl. intros [= <-].
  induction t as [|y t [IHin IHle]]; simpl.
  - split; [by left|]. intros z ->%list_elem_of_singleton. lia.
  - split.
    + destruct (Z.max_spec y (foldr Z.max x t)) as [[_ ->]|[_ ->]].
      * apply elem_of_cons in IHin as [Heq|Hin]; [rewrite Heq; by left|].
        right. by right.
      * right. by left.
    + intros z Hz. assert (z = y ∨ z ∈ x :: t) as [->|Hz'].
      { revert Hz. rewrite !elem_of_cons. tauto. }
      * lia.
      * specialize (IHle z Hz'). lia.
Qed.

Lemma interval_count_Z (min_time max_time : Z) :
  min_time ≤ max_time →
  Z.of_nat (interval_count min_time max_time)
  = (max_time - min_time + interval_duration - 1) / interval_duration.
Proof.
  intros Hle. pose proof interval_duration_pos as HD.
  unfold interval_count. rewrite Z2Nat.id; [done|].
  apply Z.div_pos; lia.
Qed.

(** The intervals reach at least [max_time], and stop within one duration
    of it. *)
Lemma interval_count_bounds (min_time max_time : Z) :
  min_time ≤ max_time →
  max_time ≤ min_time + Z.of_nat (interval_count min_time max_time) * interval_duration
  ∧ min_time + Z.of_nat (interval_count min_time max_time) * interval_duration
    < max_time + interval_duration.
Proof.
  intros Hle. pose proof interval_duration_pos as HD.
  rewrite interval_count_Z by done.
  pose proof (Z.div_mod (max_time - min_time + interval_duration - 1)
                interval_duration) as Hdm.
  pose proof (Z.mod_pos_bound (max_time - min_time + interval_duration - 1)
                interval_duration HD) as Hmod.
  lia.
Qed.

Lemma interval_count_pos (min_time max_time : Z) :
  min_time < max_time → (1 ≤ interval_count min_time max_time)%nat.
Proof.
  intros Hlt. pose proof interval_duration_pos as HD.
  pose proof (interval_count_bounds min_time max_time) as [H1 _]; [lia|].
  destruct (interval_count min_time max_time); [|lia].
  simpl in H1. lia.
Qed.

Lemma interval_count_aligned (min_time max_time : Z) :
  min_time ≤ max_time →
  (max_time - min_time) mod interval_duration = 0 →
  min_time + Z.of_nat (interval_count min_time max_time) * interval_duration
  = max_time.
Proof.
  intros Hle Hmod. pose proof interval_duration_pos as HD.
  pose proof (interval_count_bounds min_time max_time Hle) as [H1 H2].
  pose proof (Z.div_mod (max_time - min_time) interval_duration) as Hdm.
  rewrite Hmod in Hdm.
  set (n := Z.of_nat (interval_count min_time max_time)) in *.
  set (q := (max_time - min_time) / interval_duration) in *.
  assert (n = q); [|lia].
  assert (q * interval_duration ≤ n * interval_duration) as Hqn by lia.
  assert (n * interval_duration < (q + 1) * interval_duration) as Hnq by lia.
  apply Z.mul_le_mono_pos_r in Hqn; [|done].
  apply Z.mul_lt_mono_pos_r in Hnq; [|done]. lia.
Qed.

Lemma elem_of_intervals (min_time : Z) (n : nat) (start_time end_time : Z) :
  (start_time, end_time) ∈ nth_interval min_time <$> seq 0 n ↔
  ∃ i, (i < n)%nat
       ∧ start_time = min_time + Z.of_nat i * interval_duration
       ∧ end_time = start_time + interval_duration.
Proof.
  rewrite list_elem_of_fmap. unfold nth_interval. split.
  - intros (i & [= -> ->] & Hi). apply elem_of_seq in Hi.
    exists i. split; [lia|]. split; [done|lia].
  - intros (i & Hi & -> & ->). exists i. split.
    + f_equal. lia.
    + apply elem_of_seq. lia.
Qed.

Lemma elem_of_read_logfile (df : list AccessEvent) (start_time end_time : Z) e :
  e ∈ read_logfile df start_time end_time ↔
  (start_time ≤ timestamp e ∧ timestamp e < end_time) ∧ e ∈ df.
Proof. unfold read_logfile. by rewrite list_elem_of_filter. Qed.

Section windows.
Variable df : list AccessEvent.
Variables min_time max_time : Z.
Hypothesis Hmin : series_min (timestamp <$> df) = Some min_time.
Hypothesis Hmax : series_max (timestamp <$> df) = Some max_time.

Lemma min_le_max : min_time ≤ max_time.
Proof.
  apply series_min_spec in Hmin as [Hin _].
  apply series_max_spec in Hmax as [_ Hle]. by apply Hle.
Qed.

Lemma timestamp_bounds e : e ∈ df → min_time ≤ timestamp e ≤ max_time.
Proof.
  intros He. apply series_min_spec in Hmin as [_ Hge].
  apply series_max_spec in Hmax as [_ Hle].
  assert (timestamp e ∈ timestamp <$> df) as Hin by by apply list_elem_of_fmap_2.
  split; [by apply Hge|by apply Hle].
Qed.

(** An event strictly before the end of the last interval lies in exactly
    one interval. *)
Lemma event_in_one_interval e :
  e ∈ df →
  timestamp e
  < min_time + Z.of_nat (interval_count min_time max_time) * interval_duration →
  ∃ i, (i < interval_count min_time max_time)%nat
       ∧ e ∈ read_logfile df (fst (nth_interval min_time i))
               (snd (nth_interval min_time i))
       ∧ ∀ j, e ∈ read_logfile df (fst (nth_interval min_time j))
                    (snd (nth_interval min_time j)) → j = i.
Proof.
  intros He Hlt. pose proof interval_duration_pos as HD.
  pose proof (timestamp_bounds e He) as [Hlo Hhi].
  set (q := (timestamp e - min_time) / interval_duration).
  pose proof (Z.div_mod (timestamp e - min_time) interval_duration) as Hdm.
  pose proof (Z.mod_pos_bound (timestamp e - min_time) interval_duration HD)
    as Hmod.
  fold q in Hdm.
  assert (0 ≤ q) as Hq by (apply Z.div_pos; lia).
  assert (q < Z.of_nat (interval_count min_time max_time)) as Hqn.
  { apply (Z.mul_lt_mono_pos_r interval_duration); [done|]. lia. }
  exists (Z.to_nat q). split; [lia|]. unfold nth_interval. simpl. split.
  - apply elem_of_read_logfile. split; [|done]. rewrite Z2Nat.id by done. lia.
  - intros j [[Hj1 Hj2] _]%elem_of_read_logfile.
    assert (Z.of_nat j = q); [|lia].
    assert (Z.of_nat j * interval_duration < (q + 1) * interval_duration)
      as H1 by lia.
    assert (q * interval_duration < (Z.of_nat j + 1) * interval_duration)
      as H2 by lia.
    apply Z.mul_lt_mono_pos_r in H1; [|done].
    apply Z.mul_lt_mono_pos_r in H2; [|done]. lia.
Qed.

(** The intervals of the log, and their number. *)
Lemma set_time_interval_intervals :
  set_time_interval df
  = Some (nth_interval min_time <$> seq 0 (interval_count min_time max_time))
  ∧ (min_time < max_time → (1 ≤ interval_count min_time max_time)%nat)
  ∧ (min_time = max_time → interval_count min_time max_time = 0%nat).
Proof.
  split; [by apply set_time_interval_spec|]. split.
  - apply interval_count_pos.
  - intros ->. apply interval_count_done. lia.
Qed.
End windows.

(** C2, at the input where the code departs from it: when all timestamps
    of a non-empty log are equal ([min_time = max_time]) the loop
    [while current < max_time] is not entered, so [set_time_interval]
    returns no interval (the claim: exactly one), and the run completes
    without processing any event. *)
Theorem single_timestamp_no_interval (df : list AccessEvent) (t : Z) :
  series_min (timestamp <$> df) = Some t →
  series_max (timestamp <$> df) = Some t →
  set_time_interval df = Some []
  ∧ ∀ DN_count, run DN_count df = Some (Ok (), init).
Proof.
  intros Hmin Hmax.
  assert (set_time_interval df = Some []) as Hiv.
  { rewrite (set_time_interval_spec df t t Hmin Hmax).
    by rewrite interval_count_done. }
  split; [done|]. intros DN_count. unfold run. by rewrite Hiv.
Qed.

Lemma single_timestamp_no_interval_witness :
  set_time_interval [event "a" 1 0 3] = Some []
  ∧ ∀ DN_count, run DN_count [event "a" 1 0 3] = Some (Ok (), init).
Proof. apply (single_timestamp_no_interval [event "a" 1 0 3] 0); reflexivity. Defined.

(** C3, at the inputs where the code departs from it: when
    [max_time - min_time] is a multiple of the interval duration (zero
    included), the last interval ends exactly at [max_time], and since
    windows are half-open, an event that carries the maximum timestamp is
    in the window of no interval. *)
Theorem last_event_in_no_interval (df : list AccessEvent) (min_time max_time : Z)
    (time_interval : list (Z * Z)) (e : AccessEvent) (start_time end_time : Z) :
  series_min (timestamp <$> df) = Some min_time →
  series_max (timestamp <$> df) = Some max_time →
  (max_time - min_time) mod interval_duration = 0 →
  set_time_interval df = Some time_interval →
  e ∈ df →
  timestamp e = max_time →
  (start_time, end_time) ∈ time_interval →
  e ∉ read_logfile df start_time end_time.
Proof.
  intros Hmin Hmax Hmod Hiv He Hts Hin.
  pose proof interval_duration_pos as HD.
  pose proof (min_le_max df min_time max_time Hmin Hmax) as Hle.
  rewrite (set_time_interval_spec df _ _ Hmin Hmax) in Hiv.
  injection Hiv as <-.
  apply elem_of_intervals in Hin as (i & Hi & -> & ->).
  pose proof (interval_count_aligned min_time max_time Hle Hmod) as Hend.
  intros [[_ Hlt] _]%elem_of_read_logfile.
  assert ((Z.of_nat i + 1) * interval_duration
          ≤ Z.of_nat (interval_count min_time max_time) * interval_duration)
    as Hmul by (apply Z.mul_le_mono_nonneg_r; lia).
  lia.
Qed.

#[local] Transparent interval_duration.

Lemma last_event_in_no_interval_witness :
  event "a" 2 interval_duration 3 ∉ read_logfile aligned_log 0 interval_duration.
Proof.
  apply (last_event_in_no_interval aligned_log 0 interval_duration
           [(0, interval_duration)]).
  - reflexivity.
  - reflexivity.
  - reflexivity.
  - reflexivity.
  - right. by left.
  - reflexivity.
  - by left.
Defined.

(** * Exceptions stop the run *)

Lemma run_loop_first_raise DN_count df idx start_time end_time rest s :
  let L := read_logfile df start_time end_time in
  ¬ interval_ok DN_count (current_rf s) L →
  ∃ e s', run_loop DN_count df idx ((start_time, end_time) :: rest) s
          = (Raise e, s')
          ∧ disk s' = disk s
          ∧ (L = [] → e = KeyError "PD_i" ∧ s' = s)
          ∧ (L ≠ [] → e = ZeroDivisionError ∧ DN_count = 0).
Proof.
  intros L Hnot.
  destruct (run_interval_raise DN_count df idx start_time end_time s Hnot)
    as (e & s' & Hrun & H).
  exists e, s'. split; [|exact H].
  cbn [run_loop]. by rewrite bind_unfold, Hrun.
Qed.

(** With a non-zero [DN_count] the only exception of a run is the
    [KeyError] of an empty window. *)
Lemma run_loop_raise_kind DN_count df time_interval : ∀ idx s e s',
  DN_count ≠ 0 →
  run_loop DN_count df idx time_interval s = (Raise e, s') →
  e = KeyError "PD_i".
Proof.
  induction time_interval as [|[st en] rest IH]; intros idx s e s' HDN Hrun.
  - done.
  - destruct (decide (interval_ok DN_count (current_rf s)
                        (read_logfile df st en))) as [Hok|Hnot].
    + cbn [run_loop] in Hrun. rewrite bind_unfold in Hrun.
      destruct (run_interval_ok DN_count df idx st en s Hok) as (h' & Heq).
      rewrite Heq in Hrun. by eapply IH.
    + destruct (run_loop_first_raise DN_count df idx st en rest s Hnot)
        as (e' & s'' & Heq & _ & Hempty & Hzero).
      rewrite Heq in Hrun. injection Hrun as <- <-.
      destruct (decide (read_logfile df st en = [])) as [HL|HL].
      * by apply Hempty.
      * by destruct (Hzero HL).
Qed.

Lemma run_rows_stop DN_count df time_interval : ∀ rf k start_time end_time,
  time_interval !! k = Some (start_time, end_time) →
  read_logfile df start_time end_time = [] →
  (length (run_rows DN_count df rf time_interval) ≤ k)%nat.
Proof.
  induction time_interval as [|[st en] rest IH];
    intros rf k start_time end_time Hk HL; [done|].
  simpl. destruct (decide (interval_ok _ _ _)) as [[Hne _]|Hnot]; [|simpl; lia].
  destruct k as [|k]; simpl in Hk.
  - injection Hk as -> ->. done.
  - simpl. specialize (IH (interval_rf DN_count rf (read_logfile df st en))
                         k _ _ Hk HL). lia.
Qed.

(** C4, as stated, fails: in [gap_log] the second of three hours has no
    event. The run raises [KeyError] there (no [EmptyIntervalError]
    exists), nothing is recorded for that interval, and the third
    interval, which has an event, is never processed: one result file. *)
Lemma empty_interval_stops_run :
  set_time_interval gap_log
  = Some [(0, interval_duration);
          (interval_duration, 2 * interval_duration);
          (2 * interval_duration, 3 * interval_duration)]
  ∧ read_logfile gap_log interval_duration (2 * interval_duration) = []
  ∧ read_logfile gap_log (2 * interval_duration) (3 * interval_duration) ≠ []
  ∧ ∃ s, run 10 gap_log = Some (Raise (KeyError "PD_i"), s)
         ∧ fst <$> disk s = [1%nat].
Proof.
  split; [by vm_compute|]. split; [by vm_compute|]. split; [by vm_compute|].
  eexists. split; by vm_compute.
Qed.

(** C4, amended: when the window of an interval contains no event, the
    threshold computation of that interval raises [KeyError] (the empty
    metrics frame has no ['PD_i'] column); the exception is not caught:
    the loop of [run] stops there, leaving [current_rf] and the result
    files as they were, so the run ends with an exception and no result
    is recorded for that interval or any later one. The exception of the
    run is this [KeyError] when [DN_count] is not zero. *)
Theorem empty_interval_aborts_run (DN_count : Z) (df : list AccessEvent)
    (time_interval : list (Z * Z)) (k : nat) (start_time end_time : Z) :
  set_time_interval df = Some time_interval →
  time_interval !! k = Some (start_time, end_time) →
  read_logfile df start_time end_time = [] →
  (∀ idx rest s,
     run_loop DN_count df idx ((start_time, end_time) :: rest) s
     = (Raise (KeyError "PD_i"), s))
  ∧ ∃ e s, run DN_count df = Some (Raise e, s)
           ∧ (length (disk s) ≤ k)%nat
           ∧ (DN_count ≠ 0 → e = KeyError "PD_i").
Proof.
  intros Hiv Hk HL. split.
  - intros idx rest s.
    destruct (run_loop_first_raise DN_count df idx start_time end_time rest s)
      as (e & s' & Heq & _ & Hempty & _).
    { intros [Hne _]. done. }
    destruct (Hempty HL) as [-> ->]. done.
  - destruct (run_spec DN_count df time_interval Hiv)
      as (out & s & Hrun & Hdisk & Hout).
    pose proof (run_rows_stop DN_count df time_interval ∅ k _ _ Hk HL) as Hlen.
    apply lookup_lt_Some in Hk.
    destruct out as [[]|e].
    + assert (length (run_rows DN_count df ∅ time_interval)
              = length time_interval) by by apply Hout.
      lia.
    + exists e, s. split; [done|]. split.
      * by rewrite Hdisk, length_imap.
      * intros HDN. unfold run in Hrun. rewrite Hiv in Hrun.
        injection Hrun as Hrun. by eapply run_loop_raise_kind.
Qed.

Lemma empty_interval_aborts_run_witness :
  (∀ idx rest s,
     run_loop 10 gap_log idx
       ((interval_duration, 2 * interval_duration) :: rest) s
     = (Raise (KeyError "PD_i"), s))
  ∧ ∃ e s, run 10 gap_log = Some (Raise e, s)
           ∧ (length (disk s) ≤ 1)%nat
           ∧ (10 ≠ 0 → e = KeyError "PD_i").
Proof.
  apply (empty_interval_aborts_run 10 gap_log
           [(0, interval_duration);
            (interval_duration, 2 * interval_duration);
            (2 * interval_duration, 3 * interval_duration)] 1).
  - by vm_compute.
  - reflexivity.
  - by vm_compute.
Defined.

(** * A zero or negative number of nodes *)

Lemma calculate_weight_zero_nodes (dnc : Z) : 0 ≤ dnc → calculate_weight dnc 0 = 4.
Proof.
  intros Hdnc. unfold calculate_weight.
  assert (Qle_bool (inject_Z 0 * 0.75) (inject_Z dnc) = true) as ->; [|done].
  apply Qle_bool_iff. unfold Qle. simpl. lia.
Qed.

Lemma PD_value_pos (ac dnc w crf : Z) :
  0 < ac → 0 < dnc → 0 < w → 0 ≤ crf → (0 < PD_value ac dnc w crf)%Q.
Proof.
  intros Hac Hdnc Hw Hcrf. unfold PD_value.
  assert (0 < (if crf =? 0 then 1 else crf)) as Hdiv.
  { destruct (Z.eqb_spec crf 0); lia. }
  apply Qlt_shift_div_l.
  - change 0%Q with (inject_Z 0). by rewrite <-Zlt_Qlt.
  - rewrite Qmult_0_l. change 0%Q with (inject_Z 0). rewrite <-Zlt_Qlt.
    apply Z.mul_pos_pos; [apply Z.mul_pos_pos|]; done.
Qed.

Lemma series_sum_pos (l : list Q) :
  l ≠ [] → Forall (λ x, (0 < x)%Q) l → (0 < series_sum l)%Q.
Proof.
  intros Hne Hall. induction Hall as [|x t Hx Hall IH]; [done|]. simpl.
  destruct t as [|y t'].
  - simpl. by rewrite Qplus_0_r.
  - rewrite <-(Qplus_0_r 0). apply Qplus_lt_le_compat; [done|].
    apply Qlt_le_weak. by apply IH.
Qed.

Lemma threshold_zero_nodes (ms : list FileMetrics) :
  ms ≠ [] → Forall (λ m, (0 < PD_i m)%Q) ms → threshold_value ms 0 = PInf.
Proof.
  intros Hne Hpos. unfold threshold_value, np_true_div.
  assert ((Z.of_nat (length ms) =? 0) = false) as ->.
  { apply Z.eqb_neq. destruct ms; [done|]. simpl. lia. }
  simpl.
  assert (0 < series_sum (PD_i <$> ms) / inject_Z (Z.of_nat (length ms)))%Q
    as Hmean.
  { apply Qlt_shift_div_l.
    - change 0%Q with (inject_Z 0). rewrite <-Zlt_Qlt.
      destruct ms; [done|]. simpl. lia.
    - rewrite Qmult_0_l. apply series_sum_pos.
      + by intros ?%fmap_nil_inv.
      + by apply Forall_fmap. }
  apply Qgt_alt in Hmean. by rewrite Hmean.
Qed.

Lemma first_crf_nonneg (L : list AccessEvent) (name : string) :
  (∀ e, e ∈ L → 0 ≤ current_replication_factor e) → 0 ≤ first_crf L name.
Proof.
  intros Hall. unfold first_crf.
  destruct (file_logs_of L name) as [|e t] eqn:Hlogs; [done|]. simpl.
  apply Hall. assert (e ∈ file_logs_of L name) as Hin by (rewrite Hlogs; by left).
  unfold file_logs_of in Hin. by apply list_elem_of_filter in Hin as [_ ?].
Qed.

Lemma metrics_counts_pos DN_count rf (L : list AccessEvent) (name : string) :
  name ∈ filename <$> L →
  0 < ac_i (metrics_of DN_count rf L name)
  ∧ 0 < dnc_i (metrics_of DN_count rf L name).
Proof.
  intros Hin%file_logs_nonempty. simpl.
  destruct (file_logs_of L name) as [|e t] eqn:Hlogs; [done|].
  split; [simpl; lia|].
  destruct (unique (node_id <$> e :: t)) eqn:Hu; [|simpl; lia].
  by apply unique_nil_inv in Hu.
Qed.

(** With no node, every file of a window is WARM, so the update divides by
    zero. *)
Lemma zero_nodes_not_ok (L : list AccessEvent) :
  L ≠ [] →
  (∀ e, e ∈ L → 0 ≤ current_replication_factor e) →
  ¬ interval_ok 0 ∅ L.
Proof.
  intros HL Hcrf [_ [?|Hnil]]; [done|]. cbv zeta in Hnil.
  set (ms := interval_metrics 0 ∅ L) in *.
  assert (∀ m, m ∈ ms → w_i m = 4 ∧ (0 < PD_i m)%Q) as Hms.
  { intros m [Hname ->]%elem_of_interval_metrics.
    destruct (metrics_counts_pos 0 ∅ L (fname m) Hname) as [Hac Hdnc].
    simpl in Hac, Hdnc |- *.
    rewrite calculate_weight_zero_nodes by lia. split; [done|].
    apply PD_value_pos; [lia|lia|lia|].
    rewrite lookup_empty. by apply first_crf_nonneg. }
  assert (ms ≠ []) as Hne by (unfold ms; by rewrite interval_metrics_nil).
  assert (threshold_value ms 0 = PInf) as HT.
  { apply threshold_zero_nodes; [done|].
    apply Forall_forall. intros m Hm. by apply Hms. }
  rewrite HT in Hnil. clearbody ms.
  destruct ms as [|m t]; [done|].
  assert (m ∈ of_class PInf HOT (m :: t) ++ of_class PInf WARM (m :: t)) as Hin.
  { apply elem_of_app. right. apply elem_of_of_class. split; [|by left].
    destruct (Hms m) as [Hw _]; [by left|].
    unfold classify, float_ge, float_lt. rewrite Hw. done. }
  rewrite Hnil in Hin. by apply not_elem_of_nil in Hin.
Qed.

(** The first interval of a log contains the event of minimum timestamp. *)
Lemma first_interval_nonempty (df : list AccessEvent) (iv : Z * Z) rest :
  set_time_interval df = Some (iv :: rest) →
  read_logfile df iv.1 iv.2 ≠ [].
Proof.
  intros Hiv. pose proof interval_duration_pos as HD.
  destruct (series_min (timestamp <$> df)) as [min_time|] eqn:Hmin;
    [|unfold set_time_interval in Hiv; by rewrite Hmin in Hiv].
  destruct (series_max (timestamp <$> df)) as [max_time|] eqn:Hmax;
    [|by destruct df].
  rewrite (set_time_interval_spec df _ _ Hmin Hmax) in Hiv.
  destruct (interval_count min_time max_time) as [|n]; [done|].
  injection Hiv as <- _.
  apply series_min_spec in Hmin as [(e & Hts & He)%list_elem_of_fmap _].
  assert (e ∈ read_logfile df (nth_interval min_time 0).1
                (nth_interval min_time 0).2) as Hin.
  { apply elem_of_read_logfile. split; [|done]. unfold nth_interval. simpl.
    lia. }
  intros Hnil. rewrite Hnil in Hin. by apply not_elem_of_nil in Hin.
Qed.

(** C6, as stated, fails: a negative [DN_count] is accepted; the worked
    log runs to completion with [DN_count = -5] and both result files are
    written. *)
Lemma negative_DN_count_accepted :
  ∃ s, run (-5) example_log = Some (Ok (), s) ∧ fst <$> disk s = [1%nat; 2%nat].
Proof. eexists. split; by vm_compute. Qed.

(** With a non-zero [DN_count], positive or negative, an interval with an
    event completes; so the run writes one result per interval when no
    window is empty. *)
Lemma run_rows_complete DN_count df time_interval : ∀ rf,
  DN_count ≠ 0 →
  (∀ start_time end_time, (start_time, end_time) ∈ time_interval →
                          read_logfile df start_time end_time ≠ []) →
  length (run_rows DN_count df rf time_interval) = length time_interval.
Proof.
  induction time_interval as [|[st en] rest IH]; intros rf HDN Hne; [done|].
  simpl. rewrite decide_True.
  - simpl. rewrite IH; [done|done|]. intros st' en' Hin. apply Hne. by right.
  - split; [|by left]. apply Hne. by left.
Qed.

(** C6, amended: the engine has no configuration check.
    - A run with [DN_count = 0], on a log whose replication factors are
      not negative, produces no interval result: if the log yields an
      interval at all, the run stops inside the first one with
      [ZeroDivisionError] (raised by the update of the first file, not
      before the interval is processed).
    - A run with a negative [DN_count] is not rejected: when no window of
      the log is empty it completes and writes one result per interval. *)
Theorem no_configuration_check (df : list AccessEvent) :
  (∀ e, e ∈ df → 0 ≤ current_replication_factor e) →
  (∃ out s,
     run 0 df = Some (out, s)
     ∧ disk s = []
     ∧ (∀ iv rest, set_time_interval df = Some (iv :: rest) →
                   out = Raise ZeroDivisionError))
  ∧ (∀ DN_count time_interval,
       DN_count < 0 →
       set_time_interval df = Some time_interval →
       (∀ start_time end_time, (start_time, end_time) ∈ time_interval →
                               read_logfile df start_time end_time ≠ []) →
       ∃ s, run DN_count df = Some (Ok (), s)
            ∧ length (disk s) = length time_interval).
Proof.
  intros Hcrf. split.
  - destruct (set_time_interval_total df) as [[|[st en] rest] Hiv].
    + exists (Ok ()), init. unfold run. rewrite Hiv. split; [done|].
      split; [done|]. intros iv rest' [=].
    + pose proof (first_interval_nonempty df (st, en) rest Hiv) as HL.
      simpl in HL.
      destruct (run_loop_first_raise 0 df 1 st en rest init)
        as (e & s & Hrun & Hdisk & _ & Hzero).
      { apply zero_nodes_not_ok; [done|].
        intros e [_ He]%elem_of_read_logfile. by apply Hcrf. }
      destruct (Hzero HL) as [-> _].
      exists (Raise ZeroDivisionError), s. unfold run. rewrite Hiv.
      split; [by rewrite Hrun|]. split; [done|]. done.
  - intros DN_count ivs HDN Hiv Hne.
    destruct (run_spec DN_count df ivs Hiv) as (out & s & Hrun & Hdisk & Hout).
    pose proof (run_rows_complete DN_count df ivs ∅) as Hlen.
    rewrite Hlen in Hout by (done || lia).
    assert (out = Ok ()) as -> by by apply Hout.
    exists s. split; [done|]. rewrite Hdisk, length_imap. apply Hlen; [lia|done].
Qed.

Lemma no_configuration_check_witness :
  (∃ out s,
     run 0 example_log = Some (out, s)
     ∧ disk s = []
     ∧ (∀ iv rest, set_time_interval example_log = Some (iv :: rest) →
                   out = Raise ZeroDivisionError))
  ∧ (∀ DN_count time_interval,
       DN_count < 0 →
       set_time_interval example_log = Some time_interval →
       (∀ start_time end_time, (start_time, end_time) ∈ time_interval →
                               read_logfile example_log start_time end_time ≠ []) →
       ∃ s, run DN_count example_log = Some (Ok (), s)
            ∧ length (disk s) = length time_interval).
Proof.
  apply (no_configuration_check example_log).
  intros e He. repeat (apply elem_of_cons in He as [->|He]; [by vm_compute|]).
  by apply not_elem_of_nil in He.
Defined.

(** * The replication factor across intervals *)

Lemma last_nrf_app f t1 t2 :
  last_nrf f (t1 ++ t2)
  = match last_nrf f t2 with Some v => Some v | None => last_nrf f t1 end.
Proof.
  induction t1 as [|rows t1 IH]; simpl.
  - by destruct (last_nrf f t2).
  - rewrite IH. by destruct (last_nrf f t2).
Qed.

Lemma find_row_None f rows :
  find_row f rows = None ↔ ∀ r, r ∈ rows → r_filename r ≠ f.
Proof.
  unfold find_row. rewrite head_None. split.
  - intros Hnil r Hr Hf.
    assert (r ∈ filter (λ r, r_filename r = f) rows) as Hin
      by by apply list_elem_of_filter.
    rewrite Hnil in Hin. by apply not_elem_of_nil in Hin.
  - intros Hall.
    destruct (filter (λ r, r_filename r = f) rows) as [|r t] eqn:Hfilter;
      [done|].
    assert (r ∈ filter (λ r, r_filename r = f) rows) as Hin
      by (rewrite Hfilter; by left).
    apply list_elem_of_filter in Hin as [Hf Hr]. by destruct (Hall r Hr).
Qed.

Lemma find_row_Some f rows r :
  find_row f rows = Some r → r ∈ rows ∧ r_filename r = f.
Proof.
  unfold find_row. intros Hhd.
  assert (r ∈ filter (λ r, r_filename r = f) rows) as Hin.
  { destruct (filter _ rows); [done|]. injection Hhd as ->. by left. }
  apply list_elem_of_filter in Hin as [? ?]. done.
Qed.

Lemma last_nrf_none f tables :
  (∀ j rows r, tables !! j = Some rows → r ∈ rows → r_filename r ≠ f) →
  last_nrf f tables = None.
Proof.
  induction tables as [|rows later IH]; intros Hall; [done|]. simpl.
  rewrite IH.
  - assert (find_row f rows = None) as ->; [|done].
    apply find_row_None. intros r Hr. by apply (Hall 0%nat rows).
  - intros j rows' r Hj. by apply (Hall (S j)).
Qed.

Lemma last_nrf_recent f tables : ∀ j rows r,
  tables !! j = Some rows → r ∈ rows → r_filename r = f →
  functional_rows rows →
  (∀ i rows' r', (j < i)%nat → tables !! i = Some rows' → r' ∈ rows' →
                 r_filename r' ≠ f) →
  last_nrf f tables = Some (r_nrf_i r).
Proof.
  induction tables as [|rows0 later IH]; intros j rows r Hj Hr Hf Hfun Hlater;
    [done|].
  simpl. destruct j as [|j]; simpl in Hj.
  - injection Hj as ->. rewrite last_nrf_none.
    + destruct (find_row f rows) as [r0|] eqn:Hfind.
      * apply find_row_Some in Hfind as [Hr0 Hf0]. simpl. do 2 f_equal.
        apply Hfun; congruence.
      * exfalso. by apply (proj1 (find_row_None f rows) Hfind r).
    + intros i rows' r' Hi. apply (Hlater (S i)); [lia|done].
  - rewrite (IH j rows r); try done.
    intros i rows' r' Hlt Hi. apply (Hlater (S i)); [lia|done].
Qed.

Section interval_rows_facts.
Variable DN_count : Z.
Variable rf : gmap string Z.
Variable L : list AccessEvent.
Variables start_time end_time : Z.

Let rows := interval_rows DN_count rf L start_time end_time.
Let T := threshold_value (interval_metrics DN_count rf L) DN_count.

Lemma interval_row_of_file r :
  r ∈ rows ↔
  r_filename r ∈ filename <$> L
  ∧ r = final_row DN_count T start_time end_time
          (metrics_of DN_count rf L (r_filename r)).
Proof.
  unfold rows. rewrite elem_of_interval_rows. split.
  - intros (m & [Hname Hm]%elem_of_interval_metrics & ->). simpl.
    split; [done|]. by rewrite <-Hm.
  - intros [Hname Hr]. exists (metrics_of DN_count rf L (r_filename r)).
    split; [|done]. apply elem_of_interval_metrics. done.
Qed.

Lemma interval_rows_functional : functional_rows rows.
Proof.
  intros r1 r2 [_ H1]%interval_row_of_file [_ H2]%interval_row_of_file Hf.
  rewrite H1, H2. by rewrite Hf.
Qed.

(** A file has a row in the table exactly when it has an event in the
    window. *)
Lemma interval_rows_files f :
  f ∈ filename <$> L ↔ ∃ r, r ∈ rows ∧ r_filename r = f.
Proof.
  split.
  - intros Hf.
    exists (final_row DN_count T start_time end_time (metrics_of DN_count rf L f)).
    split; [|done]. by apply interval_row_of_file.
  - intros (r & [Hname _]%interval_row_of_file & <-). done.
Qed.

(** [current_rf] after the interval, from the table and the map before. *)
Lemma interval_rf_lookup f :
  interval_rf DN_count rf L !! f
  = match r_nrf_i <$> find_row f rows with
    | Some v => Some v
    | None => rf !! f
    end.
Proof.
  destruct (find_row f rows) as [r|] eqn:Hfind; simpl.
  - apply find_row_Some in Hfind as [[Hname Hr]%interval_row_of_file <-].
    rewrite Hr at 2. simpl.
    assert (metrics_of DN_count rf L (r_filename r)
            ∈ interval_metrics DN_count rf L) as Hm
      by by apply elem_of_interval_metrics.
    apply (interval_rf_in DN_count rf L _ Hm).
  - apply interval_rf_notin. intros Hf.
    apply interval_rows_files in Hf as (r & Hr & Hrf).
    by apply (proj1 (find_row_None f rows) Hfind r).
Qed.
End interval_rows_facts.

(** The table of the [k]-th completed interval is computed from a map
    [rf_k] that holds, for every file, the [nrf_i] of its latest row in the
    earlier tables. *)
Lemma run_rows_lookup DN_count df time_interval : ∀ rf prev k rows,
  (∀ f, rf !! f = last_nrf f prev) →
  run_rows DN_count df rf time_interval !! k = Some rows →
  ∃ rf_k start_time end_time,
    time_interval !! k = Some (start_time, end_time)
    ∧ interval_ok DN_count rf_k (read_logfile df start_time end_time)
    ∧ rows = interval_rows DN_count rf_k (read_logfile df start_time end_time)
               start_time end_time
    ∧ ∀ f, rf_k !! f
           = last_nrf f (prev ++ take k (run_rows DN_count df rf time_interval)).
Proof.
  induction time_interval as [|[st en] rest IH]; intros rf prev k rows Hprev Hk;
    [done|].
  simpl in Hk |- *.
  destruct (decide (interval_ok _ _ _)) as [Hok|Hnot]; [|done].
  destruct k as [|k]; simpl in Hk |- *.
  - injection Hk as <-. exists rf, st, en. rewrite app_nil_r. done.
  - destruct (IH (interval_rf DN_count rf (read_logfile df st en))
                (prev ++ [interval_rows DN_count rf (read_logfile df st en) st en])
                k rows) as (rf_k & st' & en' & Hiv & Hok' & Hrows & Hrf).
    + intros f. rewrite (interval_rf_lookup DN_count rf _ st en), last_nrf_app.
      simpl. rewrite Hprev. done.
    + done.
    + exists rf_k, st', en'. split; [done|]. split; [done|]. split; [done|].
      intros f. rewrite Hrf, <-app_assoc. done.
Qed.

Lemma run_disk_lookup DN_count df time_interval out s k idx rows :
  set_time_interval df = Some time_interval →
  run DN_count df = Some (out, s) →
  disk s !! k = Some (idx, rows) ↔
  idx = S k ∧ run_rows DN_count df ∅ time_interval !! k = Some rows.
Proof.
  intros Hiv Hrun.
  destruct (run_spec DN_count df time_interval Hiv)
    as (out' & s' & Hrun' & Hdisk & _).
  rewrite Hrun in Hrun'. injection Hrun' as <- <-.
  rewrite Hdisk, list_lookup_imap.
  destruct (run_rows DN_count df ∅ time_interval !! k) as [rows'|]; simpl.
  - split; [by intros [= <- <-]|by intros [-> [= ->]]].
  - split; [done|by intros [_ ?]].
Qed.

(** C1: in a run, let a file have a row [r] in the result of interval [k]
    (it has one exactly when it has an event in the window of that
    interval). The [crf_i] of [r] equals the [nrf_i] of the file's row in
    the most recent earlier interval [j < k] whose result has a row for
    the file; if no earlier result has one, it equals the
    [current_replication_factor] of the file's first row of the log in the
    window. And an interval leaves the entry of [current_rf] of every file
    without an event in its window unchanged. *)
Theorem replication_factor_recurrence (DN_count : Z) (df : list AccessEvent)
    (time_interval : list (Z * Z)) (out : result unit) (s : state) (k idx : nat)
    (rows : list ResultRow) (r : ResultRow) :
  set_time_interval df = Some time_interval →
  run DN_count df = Some (out, s) →
  disk s !! k = Some (idx, rows) →
  r ∈ rows →
  (∃ start_time end_time,
     time_interval !! k = Some (start_time, end_time)
     ∧ idx = S k
     ∧ (∀ f, f ∈ filename <$> read_logfile df start_time end_time ↔
             ∃ r', r' ∈ rows ∧ r_filename r' = f)
     ∧ (∀ j idx_j rows_j r',
          (j < k)%nat → disk s !! j = Some (idx_j, rows_j) → r' ∈ rows_j →
          r_filename r' = r_filename r →
          (∀ i idx_i rows_i r'',
             (j < i < k)%nat → disk s !! i = Some (idx_i, rows_i) →
             r'' ∈ rows_i → r_filename r'' ≠ r_filename r) →
          r_crf_i r = r_nrf_i r')
     ∧ ((∀ j idx_j rows_j r',
           (j < k)%nat → disk s !! j = Some (idx_j, rows_j) → r' ∈ rows_j →
           r_filename r' ≠ r_filename r) →
        ∃ e, head (filter (λ e, filename e = r_filename r)
                     (read_logfile df start_time end_time)) = Some e
             ∧ r_crf_i r = current_replication_factor e))
  ∧ (∀ idx' start_time end_time s0 s1 f,
       run_interval DN_count df idx' start_time end_time s0 = (Ok (), s1) →
       f ∉ filename <$> read_logfile df start_time end_time →
       current_rf s1 !! f = current_rf s0 !! f).
Proof.
  intros Hiv Hrun Hk Hr. split.
  - pose proof (run_disk_lookup DN_count df time_interval out s) as Hdisk.
    apply (Hdisk k idx rows Hiv Hrun) in Hk as [-> Hk].
    set (tables := run_rows DN_count df ∅ time_interval) in *.
    destruct (run_rows_lookup DN_count df time_interval ∅ [] k rows)
      as (rf_k & st & en & Hivk & _ & Hrows & Hrf); [done|done|].
    simpl in Hrf. fold tables in Hrf.
    exists st, en. split; [done|]. split; [done|]. split.
    { intros f. rewrite Hrows. apply interval_rows_files. }
    pose proof Hr as Hr'. rewrite Hrows in Hr'.
    apply interval_row_of_file in Hr' as [Hname Hreq].
    assert (r_crf_i r = match rf_k !! r_filename r with
                        | Some v => v
                        | None => first_crf (read_logfile df st en) (r_filename r)
                        end) as Hcrf by (by rewrite Hreq at 1).
    split.
    + intros j idx_j rows_j r' Hj Hdj Hr'j Hf Hbetween.
      apply (Hdisk j idx_j rows_j Hiv Hrun) in Hdj as [-> Hdj].
      rewrite Hcrf, Hrf.
      rewrite (last_nrf_recent (r_filename r) (take k tables) j rows_j r'); try done.
      * by rewrite lookup_take_lt.
      * destruct (run_rows_lookup DN_count df time_interval ∅ [] j rows_j)
          as (rf_j & st_j & en_j & _ & _ & -> & _); [done|done|].
        apply interval_rows_functional.
      * intros i rows' r'' Hji Hi Hr''.
        apply lookup_take_Some in Hi as [Hi Hik].
        apply (Hbetween i (S i) rows' r''); [lia| |done].
        by apply (Hdisk i (S i) rows' Hiv Hrun).
    + intros Hnone. rewrite Hcrf, Hrf. rewrite last_nrf_none.
      * apply file_logs_nonempty in Hname. unfold first_crf.
        unfold file_logs_of in *.
        destruct (filter _ (read_logfile df st en)) as [|e t]; [done|].
        exists e. done.
      * intros j rows_j r' Hj Hr'j.
        apply lookup_take_Some in Hj as [Hj Hjk].
        apply (Hnone j (S j) rows_j r'); [done| |done].
        by apply (Hdisk j (S j) rows_j Hiv Hrun).
  - intros idx' st en s0 s1 f Hri Hf.
    apply run_interval_inv in Hri as (_ & -> & _).
    by apply interval_rf_notin.
Qed.

Lemma replication_factor_recurrence_witness :
  r_crf_i example_row_a2 = r_nrf_i example_row_a.
Proof.
  destruct (replication_factor_recurrence 10 example_log example_intervals
              (fst example_run) (snd example_run) 1 2 (example_rows 1)
              example_row_a2)
    as [(st & en & _ & _ & _ & Hrecent & _) _].
  - by vm_compute.
  - by vm_compute.
  - by vm_compute.
  - vm_compute. by left.
  - apply (Hrecent 0%nat 1%nat (example_rows 0) example_row_a).
    + lia.
    + by vm_compute.
    + vm_compute. by left.
    + reflexivity.
    + intros i idx_i rows_i r'' Hi. lia.
Defined.

(** * The replication factor never increases *)


Lemma nrf_value_ge_1 DN_count c r : 1 ≤ nrf_value DN_count c r.
Proof. unfold nrf_value. destruct c; lia. Qed.




Lemma last_nrf_None_inv f tables :
  last_nrf f tables = None →
  ∀ j rows r, tables !! j = Some rows → r ∈ rows → r_filename r ≠ f.
Proof.
  induction tables as [|rows0 later IH]; intros Hnone j rows r Hj Hr; [done|].
  simpl in Hnone. destruct (last_nrf f later) eqn:Hlater; [done|].
  destruct (find_row f rows0) eqn:Hfind; [done|].
  destruct j as [|j]; simpl in Hj.
  - injection Hj as ->. by apply (proj1 (find_row_None f rows) Hfind).
  - by apply (IH eq_refl j rows).
Qed.

Lemma last_nrf_Some f tables v :
  last_nrf f tables = Some v →
  ∃ j rows r,
    tables !! j = Some rows ∧ r ∈ rows ∧ r_filename r = f ∧ r_nrf_i r = v
    ∧ ∀ i rows' r', (j < i)%nat → tables !! i = Some rows' → r' ∈ rows' →
                    r_filename r' ≠ f.
Proof.
  revert v. induction tables as [|rows0 later IH]; intros v Hsome; [done|].
  simpl in Hsome. destruct (last_nrf f later) as [v'|] eqn:Hlater.
  - injection Hsome as ->.
    destruct (IH v eq_refl) as (j & rows & r & Hj & Hr & Hf & Hv & Hmax).
    exists (S j), rows, r. repeat split; try done.
    intros [|i] rows' r' Hi; [lia|]. simpl. apply Hmax. lia.
  - destruct (find_row f rows0) as [r|] eqn:Hfind; [|done].
    injection Hsome as <-. apply find_row_Some in Hfind as [Hr Hf].
    exists 0%nat, rows0, r. repeat split; try done.
    intros [|i] rows' r' Hi; [lia|]. simpl.
    by apply (last_nrf_None_inv f later Hlater).
Qed.

Lemma run_rows_nrf_ge_1 DN_count df rf time_interval rows r :
  rows ∈ run_rows DN_count df rf time_interval → r ∈ rows → 1 ≤ r_nrf_i r.
Proof.
  intros (rf' & st & en & _ & _ & ->)%elem_of_run_rows
    (m & _ & ->)%elem_of_interval_rows.
  simpl. apply nrf_value_ge_1.
Qed.

Section never_increases.
Variable DN_count : Z.
Variable df : list AccessEvent.
Hypothesis HDN : 1 ≤ DN_count.
Hypothesis Hlog_crf : ∀ e, e ∈ df → 1 ≤ current_replication_factor e.
Hypothesis Hlog_nodes : Z.of_nat (length (unique (node_id <$> df))) ≤ DN_count.



Variable time_interval : list (Z * Z).
Let tables := run_rows DN_count df ∅ time_interval.

Lemma run_table_state k rows :
  tables !! k = Some rows →
  ∃ rf_k start_time end_time,
    rows = interval_rows DN_count rf_k (read_logfile df start_time end_time)
             start_time end_time
    ∧ (∀ f, rf_k !! f = last_nrf f (take k tables))
    ∧ (∀ f v, rf_k !! f = Some v → 1 ≤ v).
Proof.
  intros Hk.
  destruct (run_rows_lookup DN_count df time_interval ∅ [] k rows)
    as (rf_k & st & en & _ & _ & Hrows & Hrf); [done|done|].
  simpl in Hrf. fold tables in Hrf.
  exists rf_k, st, en. split; [done|]. split; [done|].
  intros f v Hv. rewrite Hrf in Hv.
  apply last_nrf_Some in Hv as (j & rows' & r & Hj & Hr & _ & <- & _).
  apply lookup_take_Some in Hj as [Hj _].
  eapply run_rows_nrf_ge_1; [|done]. by eapply list_elem_of_lookup_2.
Qed.


End never_increases.



(** * Further properties: the weight *)

Lemma weight_test (DN_count dnc_i : Z) (p q : positive) :
  Qle_bool (inject_Z DN_count * (Zpos p # q)) (inject_Z dnc_i)
  = (Zpos p * DN_count <=? Zpos q * dnc_i).
Proof.
  unfold Qle_bool. simpl. f_equal; lia.
Qed.

Lemma calculate_weight_cases (dnc_i DN_count : Z) :
  calculate_weight dnc_i DN_count
  = if 3 * DN_count <=? 4 * dnc_i then 4
    else if DN_count <=? 2 * dnc_i then 3
    else if DN_count <=? 4 * dnc_i then 2
    else 1.
Proof.
  unfold calculate_weight.
  change 0.75%Q with (75 # 100). change 0.5%Q with (5 # 10).
  change 0.25%Q with (25 # 100). rewrite !weight_test.
  repeat match goal with
         | |- context [?a <=? ?b] => destruct (Z.leb_spec a b)
         end; lia.
Qed.

(** X1: [calculate_weight] always returns one of 1, 2, 3, 4; for a fixed
    [DN_count] it never decreases when [dnc_i] grows, and for a fixed
    [dnc_i] it never increases when [DN_count] grows. *)
Theorem calculate_weight_range_monotone (dnc_i dnc_i' DN_count DN_count' : Z) :
  calculate_weight dnc_i DN_count ∈ [1; 2; 3; 4]
  ∧ (dnc_i ≤ dnc_i' →
     calculate_weight dnc_i DN_count ≤ calculate_weight dnc_i' DN_count)
  ∧ (DN_count ≤ DN_count' →
     calculate_weight dnc_i DN_count' ≤ calculate_weight dnc_i DN_count).
Proof.
  rewrite !calculate_weight_cases. repeat split.
  - repeat case_match; rewrite !elem_of_cons; lia.
  - intros Hle.
    repeat match goal with
           | |- context [?a <=? ?b] => destruct (Z.leb_spec a b)
           end; lia.
  - intros Hle.
    repeat match goal with
           | |- context [?a <=? ?b] => destruct (Z.leb_spec a b)
           end; lia.
Qed.


(** * Further properties: the threshold *)

(** X3: [calculate_threshold] raises [KeyError] on a frame without rows and
    never raises otherwise, whatever [DN_count]: for a non-zero [DN_count]
    the result is the mean of the [PD_i] column divided by [DN_count]; for
    [DN_count = 0] it is plus infinity, minus infinity or NaN, by the sign
    of the sum of the column. *)
Theorem calculate_threshold_cases (file_metrics : list FileMetrics) (DN_count : Z) :
  (file_metrics = [] →
   calculate_threshold file_metrics DN_count = Raise (KeyError "PD_i"))
  ∧ (file_metrics ≠ [] →
     let total := series_sum (PD_i <$> file_metrics) in
     let n := Z.of_nat (length file_metrics) in
     (DN_count ≠ 0 →
      calculate_threshold file_metrics DN_count
      = Ok (Fin (total / inject_Z n / inject_Z DN_count)))
     ∧ (DN_count = 0 →
        calculate_threshold file_metrics DN_count
        = Ok (match (total ?= 0)%Q with
              | Gt => PInf
              | Lt => NInf
              | Eq => NaN
              end))).
Proof.
  split; [by intros ->|].
  intros Hne total n.
  rewrite calculate_threshold_value by done.
  unfold threshold_value. fold total n.
  assert (0 < n) as Hn by (unfold n; destruct file_metrics; [done|simpl; lia]).
  assert (np_true_div (Fin total) n = Fin (total / inject_Z n)) as ->.
  { unfold np_true_div. by rewrite (proj2 (Z.eqb_neq n 0)) by lia. }
  unfold np_true_div. split.
  - intros HDN. by rewrite (proj2 (Z.eqb_neq DN_count 0) HDN).
  - intros ->. change (0 =? 0) with true. cbv iota. f_equal.
    assert (0 < inject_Z n)%Q as Hpos.
    { change 0%Q with (inject_Z 0). by rewrite <-Zlt_Qlt. }
    destruct (total ?= 0)%Q eqn:Hcmp.
    + apply Qeq_alt in Hcmp.
      assert (total / inject_Z n == 0)%Q as Hq by (rewrite Hcmp; field; lra).
      apply Qeq_alt in Hq. unfold Qcompare in Hq |- *. by rewrite Hq.
    + apply Qlt_alt in Hcmp.
      assert (total / inject_Z n < 0)%Q as Hq.
      { apply Qlt_shift_div_r; [done|]. lra. }
      apply Qlt_alt in Hq. unfold Qcompare in Hq |- *. by rewrite Hq.
    + apply Qgt_alt in Hcmp.
      assert (0 < total / inject_Z n)%Q as Hq.
      { apply Qlt_shift_div_l; [done|]. lra. }
      apply Qgt_alt in Hq. unfold Qcompare in Hq |- *. by rewrite Hq.
Qed.

(** * Further properties: the windows of a run *)

#[local] Opaque interval_duration.


#[local] Transparent interval_duration.


#[local] Opaque interval_duration.

(** X5: the windows do not overlap and leave no gap before the last end:
    an event whose timestamp is earlier than the latest one, and every
    event when the span of the log is not a whole number of hours, is read
    by exactly one window of the run. *)
Theorem event_in_exactly_one_window (df : list AccessEvent) (min_time max_time : Z)
    (time_interval : list (Z * Z)) (e : AccessEvent) :
  series_min (timestamp <$> df) = Some min_time →
  series_max (timestamp <$> df) = Some max_time →
  set_time_interval df = Some time_interval →
  e ∈ df →
  timestamp e < max_time ∨ (max_time - min_time) mod interval_duration ≠ 0 →
  ∃ i start_time end_time,
    time_interval !! i = Some (start_time, end_time)
    ∧ e ∈ read_logfile df start_time end_time
    ∧ ∀ j start_time' end_time',
        time_interval !! j = Some (start_time', end_time') →
        e ∈ read_logfile df start_time' end_time' → j = i.
Proof.
  intros Hmin Hmax Hiv He Hts.
  rewrite (set_time_interval_spec df min_time max_time Hmin Hmax) in Hiv.
  injection Hiv as <-.
  pose proof (min_le_max df min_time max_time Hmin Hmax) as Hle.
  pose proof (interval_count_bounds min_time max_time Hle) as [Hend _].
  pose proof (timestamp_bounds df min_time max_time Hmin Hmax e He) as [_ Hmaxe].
  set (n := interval_count min_time max_time) in *.
  assert (timestamp e < min_time + Z.of_nat n * interval_duration) as Hlt.
  { destruct Hts as [Hts|Hmod]; [lia|].
    destruct (decide (max_time = min_time + Z.of_nat n * interval_duration))
      as [Heq|Hne]; [|lia].
    exfalso. apply Hmod.
    replace (max_time - min_time) with (Z.of_nat n * interval_duration) by lia.
    apply Z.mod_mul. pose proof interval_duration_pos. lia. }
  destruct (event_in_one_interval df min_time max_time Hmin Hmax e He Hlt)
    as (i & Hi & Hin & Huniq).
  exists i, (fst (nth_interval min_time i)), (snd (nth_interval min_time i)).
  split.
  { rewrite list_lookup_fmap, lookup_seq_lt by done. reflexivity. }
  split; [done|].
  intros j st en Hj Hin'. apply Huniq.
  rewrite list_lookup_fmap in Hj.
  destruct (seq 0 n !! j) as [j'|] eqn:Hseq; [|done].
  apply lookup_seq in Hseq as [-> _]. simpl in Hj. injection Hj as <- <-.
  exact Hin'.
Qed.

#[local] Transparent interval_duration.

Lemma event_in_exactly_one_window_witness :
  ∃ i start_time end_time,
    example_intervals !! i = Some (start_time, end_time)
    ∧ event "a" 1 (interval_duration + 5) 5
      ∈ read_logfile example_log start_time end_time
    ∧ ∀ j start_time' end_time',
        example_intervals !! j = Some (start_time', end_time') →
        event "a" 1 (interval_duration + 5) 5
        ∈ read_logfile example_log start_time' end_time' → j = i.
Proof.
  apply (event_in_exactly_one_window example_log 0 (interval_duration + 5)).
  - reflexivity.
  - reflexivity.
  - by vm_compute.
  - vm_compute. do 6 right. left.
  - right. by vm_compute.
Defined.

#[local] Opaque interval_duration.

(** X6: a run ends without an exception and without a result file exactly
    when all the events of the log carry the same timestamp (an empty log
    included); such a log has no window at all. *)
Theorem run_without_result_files (DN_count : Z) (df : list AccessEvent) :
  (∀ e e', e ∈ df → e' ∈ df → timestamp e = timestamp e')
  ↔ ∃ s, run DN_count df = Some (Ok (), s) ∧ disk s = [].
Proof.
  destruct df as [|e0 t] eqn:Hdf.
  { split; [|intros _ e e' He; by apply elem_of_nil in He].
    intros _. by exists init. }
  rewrite <-Hdf.
  assert (∃ min_time, series_min (timestamp <$> df) = Some min_time)
    as [min_time Hmin] by (rewrite Hdf; by eexists).
  assert (∃ max_time, series_max (timestamp <$> df) = Some max_time)
    as [max_time Hmax] by (rewrite Hdf; by eexists).
  pose proof (set_time_interval_intervals df min_time max_time Hmin Hmax)
    as (Hiv & Hpos & Hzero).
  pose proof (min_le_max df min_time max_time Hmin Hmax) as Hle.
  split.
  - intros Hsame. exists init.
    assert (min_time = max_time) as Heq.
    { apply series_min_spec in Hmin as [Hm _].
      apply series_max_spec in Hmax as [HM _].
      apply list_elem_of_fmap in Hm as (e & -> & He).
      apply list_elem_of_fmap in HM as (e' & -> & He'). by apply Hsame. }
    unfold run. rewrite Hiv, (Hzero Heq). done.
  - intros (s & Hrun & Hdisk).
    destruct (run_spec DN_count df _ Hiv) as (out & s' & Hrun' & Hdisk' & Hok).
    rewrite Hrun in Hrun'. injection Hrun' as <- <-.
    assert (min_time = max_time) as Heq.
    { destruct (decide (min_time = max_time)) as [|Hne]; [done|]. exfalso.
      assert (1 ≤ interval_count min_time max_time)%nat as Hn
        by (apply Hpos; lia).
      pose proof (proj1 Hok eq_refl) as Hlen.
      rewrite length_fmap, length_seq in Hlen.
      rewrite Hdisk in Hdisk'. apply (f_equal length) in Hdisk'.
      rewrite length_imap in Hdisk'. simpl in Hdisk'. lia. }
    intros e e' He He'.
    pose proof (timestamp_bounds df min_time max_time Hmin Hmax e He).
    pose proof (timestamp_bounds df min_time max_time Hmin Hmax e' He'). lia.
Qed.

#[local] Transparent interval_duration.

(** * Further properties: the rows of [process_files] *)

Lemma length_file_logs_cons (L : list AccessEvent) (n : string) (ns : list string) :
  n ∉ ns →
  (length (file_logs_of L n) + length (filter (λ e, filename e ∈ ns) L)
   = length (filter (λ e, filename e ∈ n :: ns) L))%nat.
Proof.
  intros Hn. unfold file_logs_of. induction L as [|e L IH]; [done|].
  rewrite !filter_cons.
  destruct (decide (filename e = n)) as [Heq|Hne].
  - rewrite decide_False by (by rewrite Heq).
    rewrite decide_True by (rewrite Heq; by left). simpl. lia.
  - destruct (decide (filename e ∈ ns)) as [Hin|Hnin].
    + rewrite decide_True by (by right). simpl. lia.
    + rewrite decide_False; [done|].
      intros [?|?]%elem_of_cons; done.
Qed.

Lemma filter_all {A} (P : A → Prop) `{∀ x, Decision (P x)} (l : list A) :
  Forall P l → filter P l = l.
Proof.
  induction 1 as [|x l Hx _ IH]; [done|].
  by rewrite filter_cons, decide_True, IH.
Qed.

(** Every event of the window is counted for exactly one file. *)
Lemma sum_file_logs (L : list AccessEvent) (names : list string) :
  NoDup names →
  foldr Z.add 0 ((λ n, Z.of_nat (length (file_logs_of L n))) <$> names)
  = Z.of_nat (length (filter (λ e, filename e ∈ names) L)).
Proof.
  induction 1 as [|n ns Hn _ IH].
  - simpl. induction L as [|e L IH]; [done|].
    rewrite filter_cons, decide_False; [done|]. apply not_elem_of_nil.
  - rewrite fmap_cons. cbn [foldr].
    rewrite IH, <-(length_file_logs_cons L n ns Hn). lia.
Qed.

Lemma seed_lookup (L : list AccessEvent) (names : list string) : ∀ rf f,
  seed L rf names !! f
  = match rf !! f with
    | Some v => Some v
    | None => if decide (f ∈ names) then Some (first_crf L f) else None
    end.
Proof.
  induction names as [|n ns IH]; intros rf f.
  - unfold seed. cbn [foldl]. destruct (rf !! f); [done|].
    by rewrite decide_False by apply not_elem_of_nil.
  - unfold seed in *. simpl. rewrite IH. unfold seed_one.
    destruct (rf !! n) as [vn|] eqn:Hn.
    + destruct (rf !! f) as [v|] eqn:Hf; [done|].
      destruct (decide (f = n)) as [->|Hne]; [congruence|].
      destruct (decide (f ∈ ns)) as [Hin|Hnin].
      * by rewrite decide_True by (by right).
      * rewrite decide_False; [done|]. intros [?|?]%elem_of_cons; done.
    + destruct (decide (f = n)) as [->|Hne].
      * rewrite lookup_insert_eq, Hn. by rewrite decide_True by (by left).
      * rewrite lookup_insert_ne by done.
        destruct (rf !! f) as [v|] eqn:Hf; [done|].
        destruct (decide (f ∈ ns)) as [Hin|Hnin].
        -- by rewrite decide_True by (by right).
        -- rewrite decide_False; [done|]. intros [?|?]%elem_of_cons; done.
Qed.


(** X8: [process_files] only adds to [current_rf]. An entry that exists is
    kept, a file without an event in the window gets none, and a file of
    the window that had no entry gets the replication factor of its first
    event in the window. Afterwards the [crf_i] of every row is the entry
    of its file. *)
Theorem process_files_current_rf (DN_count : Z) (interval_logs : list AccessEvent)
    (s : state) :
  ∃ file_metrics s',
    process_files DN_count interval_logs s = (Ok file_metrics, s')
    ∧ (∀ f v, current_rf s !! f = Some v → current_rf s' !! f = Some v)
    ∧ (∀ f, f ∉ filename <$> interval_logs →
            current_rf s' !! f = current_rf s !! f)
    ∧ (∀ r, r ∈ file_metrics →
         current_rf s' !! fname r = Some (crf_i r)
         ∧ (current_rf s !! fname r = None →
            ∃ e, head (file_logs_of interval_logs (fname r)) = Some e
                 ∧ crf_i r = current_replication_factor e)).
Proof.
  eexists _, _. split; [apply process_files_spec|]. simpl.
  split; [|split].
  - intros f v Hv. by rewrite seed_lookup, Hv.
  - intros f Hf. rewrite seed_lookup. destruct (current_rf s !! f); [done|].
    rewrite decide_False; [done|]. by rewrite elem_of_unique.
  - intros r (name & -> & Hname)%list_elem_of_fmap. simpl.
    rewrite seed_lookup. rewrite elem_of_unique in Hname.
    destruct (current_rf s !! name) as [v|]; [done|].
    rewrite decide_True by (by rewrite elem_of_unique).
    split; [done|]. intros _.
    pose proof (file_logs_nonempty interval_logs name Hname) as Hne.
    unfold first_crf. destruct (file_logs_of interval_logs name) as [|e t]; [done|].
    by exists e.
Qed.

(** * Further properties: the result table of an interval *)

Lemma interval_rows_perm DN_count rf L start_time end_time :
  interval_rows DN_count rf L start_time end_time
  ≡ₚ final_row DN_count
       (threshold_value (interval_metrics DN_count rf L) DN_count)
       start_time end_time <$> interval_metrics DN_count rf L.
Proof.
  unfold interval_rows. cbv zeta.
  rewrite sort_values_perm. apply fmap_Permutation, by_class_perm.
Qed.

Lemma find_row_in (rows : list ResultRow) (r : ResultRow) :
  functional_rows rows → r ∈ rows → find_row (r_filename r) rows = Some r.
Proof.
  intros Hfun Hr.
  destruct (find_row (r_filename r) rows) as [r0|] eqn:Hfind.
  - apply find_row_Some in Hfind as [Hr0 Hf0]. f_equal. by apply Hfun.
  - exfalso. by apply (proj1 (find_row_None _ _) Hfind r).
Qed.

(** X9: after a completed interval, [current_rf] holds for every file with
    a row in the result of the interval the [nrf_i] of that row, whatever
    its class (for a COLD row: 1); the entry of every other file is as it
    was before the interval. *)
Theorem interval_state_matches_table (DN_count : Z) (df : list AccessEvent)
    (idx : nat) (start_time end_time : Z) (s s' : state) :
  run_interval DN_count df idx start_time end_time s = (Ok (), s') →
  ∃ rows,
    disk s' = disk s ++ [(idx, rows)]
    ∧ (∀ r, r ∈ rows →
         current_rf s' !! r_filename r = Some (r_nrf_i r)
         ∧ (r_classification r = COLD → current_rf s' !! r_filename r = Some 1))
    ∧ (∀ f, (∀ r, r ∈ rows → r_filename r ≠ f) →
            current_rf s' !! f = current_rf s !! f).
Proof.
  intros Hrun.
  apply run_interval_inv in Hrun as (Hok & Hrf & Hdisk).
  eexists. split; [exact Hdisk|]. rewrite Hrf.
  set (L := read_logfile df start_time end_time).
  set (rows := interval_rows DN_count (current_rf s) L start_time end_time).
  pose proof (interval_rows_functional DN_count (current_rf s) L
                start_time end_time) as Hfun.
  split.
  - intros r Hr.
    rewrite (interval_rf_lookup DN_count (current_rf s) L start_time end_time).
    fold rows. rewrite (find_row_in rows r Hfun Hr). simpl. split; [done|].
    intros Hcold. f_equal.
    apply elem_of_interval_rows in Hr as (m & _ & ->). simpl in *.
    by rewrite Hcold.
  - intros f Hf.
    rewrite (interval_rf_lookup DN_count (current_rf s) L start_time end_time).
    fold rows. by rewrite (proj2 (find_row_None f rows) Hf).
Qed.

Lemma interval_state_matches_table_witness :
  ∃ rows,
    disk (snd example_first) = disk init ++ [(1%nat, rows)]
    ∧ (∀ r, r ∈ rows →
         current_rf (snd example_first) !! r_filename r = Some (r_nrf_i r)
         ∧ (r_classification r = COLD →
            current_rf (snd example_first) !! r_filename r = Some 1))
    ∧ (∀ f, (∀ r, r ∈ rows → r_filename r ≠ f) →
            current_rf (snd example_first) !! f = current_rf init !! f).
Proof.
  apply (interval_state_matches_table 10 example_log 1 0 interval_duration init
           (snd example_first)).
  by vm_compute.
Defined.

Lemma sum_Permutation (l l' : list Z) :
  l ≡ₚ l' → foldr Z.add 0 l = foldr Z.add 0 l'.
Proof. induction 1; simpl; lia. Qed.

Lemma sum_ac_i_interval_metrics DN_count rf (L : list AccessEvent) :
  foldr Z.add 0 (ac_i <$> interval_metrics DN_count rf L) = Z.of_nat (length L).
Proof.
  unfold interval_metrics. rewrite <-list_fmap_compose.
  change (ac_i ∘ metrics_of DN_count rf L)
    with (λ n, Z.of_nat (length (file_logs_of L n))).
  rewrite sum_file_logs by apply NoDup_unique. f_equal. f_equal.
  apply filter_all, Forall_forall. intros e He.
  apply elem_of_unique, list_elem_of_fmap. by exists e.
Qed.

(** X10: the result of a completed interval is a well-formed table. It has
    exactly one row per file with an event in the window (so at least one
    row); all rows carry the same threshold and the bounds of the window;
    in each row [1 <= dnc_i <= ac_i], [w_i] is the weight of [dnc_i],
    [PD_i] is the popularity degree of the other columns; and the [ac_i]
    column adds up to the number of events of the window. *)
Theorem result_table_well_formed (DN_count : Z) (df : list AccessEvent)
    (idx : nat) (start_time end_time : Z) (s s' : state) :
  run_interval DN_count df idx start_time end_time s = (Ok (), s') →
  ∃ rows T,
    disk s' = disk s ++ [(idx, rows)]
    ∧ rows ≠ []
    ∧ NoDup (r_filename <$> rows)
    ∧ (∀ f, f ∈ r_filename <$> rows
            ↔ f ∈ filename <$> read_logfile df start_time end_time)
    ∧ Forall (λ r, r_threshold r = T
                   ∧ r_interval_start r = start_time
                   ∧ r_interval_end r = end_time
                   ∧ 1 ≤ r_dnc_i r ≤ r_ac_i r
                   ∧ r_w_i r = calculate_weight (r_dnc_i r) DN_count
                   ∧ calculate_popularity_degree
                       (r_ac_i r) (r_dnc_i r) (r_w_i r) (r_crf_i r)
                     = Ok (r_PD_i r)) rows
    ∧ foldr Z.add 0 (r_ac_i <$> rows)
      = Z.of_nat (length (read_logfile df start_time end_time)).
Proof.
  intros Hrun.
  apply run_interval_inv in Hrun as (Hok & Hrf & Hdisk).
  set (L := read_logfile df start_time end_time) in *.
  set (ms := interval_metrics DN_count (current_rf s) L).
  set (T := threshold_value ms DN_count).
  pose proof (interval_rows_perm DN_count (current_rf s) L start_time end_time)
    as Hperm. fold ms T in Hperm.
  exists (interval_rows DN_count (current_rf s) L start_time end_time), T.
  split; [exact Hdisk|]. split.
  { intros Hnil. rewrite Hnil in Hperm. symmetry in Hperm.
    apply Permutation_nil_r in Hperm. apply fmap_nil_inv in Hperm.
    apply interval_metrics_nil in Hperm. by destruct Hok. }
  assert (r_filename <$> interval_rows DN_count (current_rf s) L start_time end_time
          ≡ₚ unique (filename <$> L)) as Hnames.
  { rewrite Hperm, <-list_fmap_compose.
    rewrite <-(fname_interval_metrics DN_count (current_rf s) L). done. }
  split; [rewrite Hnames; apply NoDup_unique|].
  split; [intros f; rewrite Hnames; apply elem_of_unique|].
  split.
  - rewrite Hperm. apply Forall_fmap, Forall_forall.
    intros m [Hname ->]%elem_of_interval_metrics.
    destruct (metrics_counts_pos DN_count (current_rf s) L (fname m) Hname)
      as [_ Hdnc].
    simpl in *. repeat split; try lia.
    + apply Nat2Z.inj_le. etrans; [apply unique_from_length|].
      by rewrite length_fmap.
    + apply popularity_degree_value.
  - rewrite (sum_Permutation _ _ (fmap_Permutation r_ac_i _ _ Hperm)).
    rewrite <-list_fmap_compose.
    apply (sum_ac_i_interval_metrics DN_count (current_rf s) L).
Qed.

Lemma result_table_well_formed_witness :
  ∃ rows T,
    disk (snd example_first) = disk init ++ [(1%nat, rows)]
    ∧ rows ≠ []
    ∧ NoDup (r_filename <$> rows)
    ∧ (∀ f, f ∈ r_filename <$> rows
            ↔ f ∈ filename <$> read_logfile example_log 0 interval_duration)
    ∧ Forall (λ r, r_threshold r = T
                   ∧ r_interval_start r = 0
                   ∧ r_interval_end r = interval_duration
                   ∧ 1 ≤ r_dnc_i r ≤ r_ac_i r
                   ∧ r_w_i r = calculate_weight (r_dnc_i r) 10
                   ∧ calculate_popularity_degree
                       (r_ac_i r) (r_dnc_i r) (r_w_i r) (r_crf_i r)
                     = Ok (r_PD_i r)) rows
    ∧ foldr Z.add 0 (r_ac_i <$> rows)
      = Z.of_nat (length (read_logfile example_log 0 interval_duration)).
Proof.
  apply (result_table_well_formed 10 example_log 1 0 interval_duration init
           (snd example_first)).
  by vm_compute.
Defined.

(** ** The order of the rows *)

Lemma string_ltb_trans (a b c : string) :
  String.ltb a b = true → String.ltb b c = true → String.ltb a c = true.
Proof.
  unfold String.ltb.
  destruct (String.compare a b) eqn:Hab; try done.
  destruct (String.compare b c) eqn:Hbc; try done.
  intros _ _.
  apply OrderedTypeEx.String_as_OT.cmp_lt in Hab, Hbc.
  pose proof (OrderedTypeEx.String_as_OT.lt_trans _ _ _ Hab Hbc) as Hac.
  apply OrderedTypeEx.String_as_OT.cmp_lt in Hac.
  unfold OrderedTypeEx.String_as_OT.cmp in Hac. by rewrite Hac.
Qed.

Lemma string_leb_ltb (a b : string) :
  String.leb a b = true ↔ a = b ∨ String.ltb a b = true.
Proof.
  unfold String.leb, String.ltb.
  destruct (String.compare a b) eqn:Hab.
  - apply String.compare_eq_iff in Hab. naive_solver.
  - naive_solver.
  - split; [done|]. intros [->|]; [|done].
    assert (String.compare b b = Eq) as Hbb
      by by apply OrderedTypeEx.String_as_OT.cmp_eq.
    congruence.
Qed.

Lemma string_leb_trans (a b c : string) :
  String.leb a b = true → String.leb b c = true → String.leb a c = true.
Proof.
  rewrite !string_leb_ltb. intros [->|Hab] [->|Hbc]; auto.
  right. by eapply string_ltb_trans.
Qed.

Lemma row_leb_spec (a b : ResultRow) :
  row_leb a b = true ↔
  classification_order (r_classification a)
  < classification_order (r_classification b)
  ∨ (r_classification a = r_classification b
     ∧ String.leb (r_filename a) (r_filename b) = true).
Proof.
  unfold row_leb. cbv zeta.
  rewrite orb_true_iff, andb_true_iff, Z.ltb_lt, Z.eqb_eq.
  split; (intros [?|[Hc ?]]; [by left|right; split; [|done]]).
  - by destruct (r_classification a), (r_classification b).
  - by rewrite Hc.
Qed.

Lemma row_leb_total (a b : ResultRow) : row_leb a b = true ∨ row_leb b a = true.
Proof.
  rewrite !row_leb_spec.
  destruct (String.leb_total (r_filename a) (r_filename b));
    destruct (r_classification a), (r_classification b); simpl; auto with lia.
Qed.

Lemma row_leb_trans (a b c : ResultRow) :
  row_leb a b = true → row_leb b c = true → row_leb a c = true.
Proof.
  rewrite !row_leb_spec. intros [Hab|[Hab Hfab]] [Hbc|[Hbc Hfbc]].
  - left. lia.
  - left. by rewrite <-Hbc.
  - left. by rewrite Hab.
  - right. split; [congruence|]. by eapply string_leb_trans.
Qed.

Lemma sort_insert_sorted (r : ResultRow) (l : list ResultRow) :
  StronglySorted (λ a b, row_leb a b = true) l →
  StronglySorted (λ a b, row_leb a b = true) (sort_insert r l).
Proof.
  induction 1 as [|x t Hsorted IH Hx]; simpl.
  - repeat constructor.
  - destruct (row_leb r x) eqn:Hrx.
    + constructor; [by constructor|]. constructor; [done|].
      eapply Forall_impl; [exact Hx|]. intros y Hxy. by eapply row_leb_trans.
    + constructor; [done|]. rewrite sort_insert_perm. constructor; [|done].
      destruct (row_leb_total r x); congruence.
Qed.

Lemma sort_values_sorted (l : list ResultRow) :
  StronglySorted (λ a b, row_leb a b = true) (sort_values l).
Proof.
  induction l as [|r l IH]; simpl; [constructor|by apply sort_insert_sorted].
Qed.

Lemma StronglySorted_lookup {A} (R : A → A → Prop) (l : list A) :
  StronglySorted R l →
  ∀ i j x y, (i < j)%nat → l !! i = Some x → l !! j = Some y → R x y.
Proof.
  induction 1 as [|a l _ IH Ha]; intros i j x y Hij Hi Hj; [done|].
  destruct j as [|j]; [lia|]. simpl in Hj. destruct i as [|i]; simpl in Hi.
  - injection Hi as <-. rewrite Forall_forall in Ha.
    apply Ha. by eapply list_elem_of_lookup_2.
  - apply (IH i j); [lia|done|done].
Qed.

(** X11: the rows of the result of a completed interval are sorted: a HOT
    row comes before every WARM row and a WARM row before every COLD row,
    and within a class the rows are in strictly ascending order of the
    file name (compared character by character). *)
Theorem result_table_sorted (DN_count : Z) (df : list AccessEvent)
    (idx : nat) (start_time end_time : Z) (s s' : state) :
  run_interval DN_count df idx start_time end_time s = (Ok (), s') →
  ∃ rows,
    disk s' = disk s ++ [(idx, rows)]
    ∧ ∀ i j ri rj,
        (i < j)%nat → rows !! i = Some ri → rows !! j = Some rj →
        classification_order (r_classification ri)
        < classification_order (r_classification rj)
        ∨ (r_classification ri = r_classification rj
           ∧ String.ltb (r_filename ri) (r_filename rj) = true).
Proof.
  intros Hrun.
  apply run_interval_inv in Hrun as (Hok & Hrf & Hdisk).
  set (L := read_logfile df start_time end_time) in *.
  eexists. split; [exact Hdisk|].
  intros i j ri rj Hij Hi Hj.
  assert (row_leb ri rj = true) as Hle.
  { eapply (StronglySorted_lookup _ _ (sort_values_sorted _)); [exact Hij| |].
    - exact Hi.
    - exact Hj. }
  apply row_leb_spec in Hle as [Hlt|[Hc Hle]]; [by left|right].
  split; [done|].
  apply string_leb_ltb in Hle as [Heq|Hlt]; [|done]. exfalso.
  pose proof (interval_rows_functional DN_count (current_rf s) L
                start_time end_time ri rj) as Hfun.
  assert (ri = rj) as Heq'.
  { apply Hfun; [by eapply list_elem_of_lookup_2..|done]. }
  subst rj.
  assert (NoDup (interval_rows DN_count (current_rf s) L start_time end_time))
    as Hnd.
  { rewrite interval_rows_perm. apply NoDup_fmap_2_strong.
    - intros m1 m2 [_ H1]%elem_of_interval_metrics
        [_ H2]%elem_of_interval_metrics Heq2.
      apply (f_equal r_filename) in Heq2. simpl in Heq2.
      rewrite H1, H2. by rewrite Heq2.
    - apply (NoDup_fmap_1 fname). rewrite fname_interval_metrics.
      apply NoDup_unique. }
  pose proof (NoDup_lookup _ i j ri Hnd Hi Hj). lia.
Qed.

Lemma result_table_sorted_witness :
  ∃ rows,
    disk (snd example_first) = disk init ++ [(1%nat, rows)]
    ∧ ∀ i j ri rj,
        (i < j)%nat → rows !! i = Some ri → rows !! j = Some rj →
        classification_order (r_classification ri)
        < classification_order (r_classification rj)
        ∨ (r_classification ri = r_classification rj
           ∧ String.ltb (r_filename ri) (r_filename rj) = true).
Proof.
  apply (result_table_sorted 10 example_log 1 0 interval_duration init
           (snd example_first)).
  by vm_compute.
Defined.

(** ** The threshold column *)

Lemma threshold_value_finite (ms : list FileMetrics) (DN_count : Z) :
  ms ≠ [] → DN_count ≠ 0 →
  threshold_value ms DN_count
  = Fin (series_sum (PD_i <$> ms) / inject_Z (Z.of_nat (length ms))
         / inject_Z DN_count).
Proof.
  intros Hne HDN. unfold threshold_value, np_true_div.
  rewrite (proj2 (Z.eqb_neq (Z.of_nat (length ms)) 0))
    by (destruct ms; [done|simpl; lia]).
  by rewrite (proj2 (Z.eqb_neq DN_count 0) HDN).
Qed.




(** ** Files that are never cold *)

Lemma series_sum_le_max (l : list Q) (M : Q) :
  Forall (λ x, (x <= M)%Q) l →
  (series_sum l <= inject_Z (Z.of_nat (length l)) * M)%Q.
Proof.
  induction 1 as [|x t Hx _ IH].
  - cbn [series_sum length]. change (inject_Z (Z.of_nat 0)) with 0%Q. lra.
  - cbn [series_sum length]. rewrite Nat2Z.inj_succ. unfold Z.succ.
    rewrite inject_Z_plus. change (inject_Z 1) with 1%Q. lra.
Qed.

Lemma calculate_weight_range (dnc_i DN_count : Z) :
  calculate_weight dnc_i DN_count ∈ [1; 2; 3; 4].
Proof.
  rewrite calculate_weight_cases.
  repeat case_match; set_solver.
Qed.

Lemma classify_ge_not_cold (t : Q) (r : FileMetrics) :
  w_i r ∈ [1; 2; 3; 4] → (t <= PD_i r)%Q → classify (Fin t) r ≠ COLD.
Proof.
  intros Hw Hle. unfold classify. simpl.
  rewrite (proj2 (Qle_bool_iff t (PD_i r)) Hle). simpl.
  destruct (bool_decide (w_i r ∈ [3; 4])) eqn:H34; [done|].
  rewrite bool_decide_true; [done|].
  apply bool_decide_eq_false in H34. set_solver.
Qed.


Lemma interval_metrics_PD_pos DN_count rf (L : list AccessEvent) m :
  (∀ f v, rf !! f = Some v → 0 ≤ v) →
  (∀ e, e ∈ L → 0 ≤ current_replication_factor e) →
  m ∈ interval_metrics DN_count rf L → (0 < PD_i m)%Q.
Proof.
  intros Hrf Hlog [Hname ->]%elem_of_interval_metrics.
  destruct (metrics_counts_pos DN_count rf L (fname m) Hname) as [Hac Hdnc].
  simpl in *. apply PD_value_pos; [done|done| |].
  - pose proof (calculate_weight_range
                  (Z.of_nat (length (unique (node_id <$> file_logs_of L (fname m)))))
                  DN_count) as Hw.
    set_solver by lia.
  - destruct (rf !! fname m) as [v|] eqn:Hv; [by eapply Hrf|].
    by apply first_crf_nonneg.
Qed.

Lemma interval_rows_max_not_cold DN_count rf (L : list AccessEvent)
    start_time end_time r :
  1 ≤ DN_count →
  (∀ f v, rf !! f = Some v → 0 ≤ v) →
  (∀ e, e ∈ L → 0 ≤ current_replication_factor e) →
  r ∈ interval_rows DN_count rf L start_time end_time →
  (∀ r', r' ∈ interval_rows DN_count rf L start_time end_time →
         (r_PD_i r' <= r_PD_i r)%Q) →
  r_classification r ≠ COLD.
Proof.
  intros HDN Hrf Hlog Hr Hmax.
  set (ms := interval_metrics DN_count rf L).
  pose proof Hr as (m & Hm & Heq)%elem_of_interval_rows. fold ms in Hm, Heq.
  assert (ms ≠ []) as Hne by (intros Hnil; rewrite Hnil in Hm; by apply elem_of_nil in Hm).
  rewrite (threshold_value_finite ms DN_count Hne) in Heq by lia.
  rewrite Heq. cbn [r_classification final_row].
  assert (r_PD_i r = PD_i m) as HPD by by rewrite Heq.
  assert (0 < PD_i m)%Q as Hpos by by eapply interval_metrics_PD_pos.
  apply classify_ge_not_cold.
  { apply elem_of_interval_metrics in Hm as [_ ->]. simpl.
    apply calculate_weight_range. }
  assert (0 < inject_Z (Z.of_nat (length ms)))%Q as Hn.
  { change 0%Q with (inject_Z 0). rewrite <-Zlt_Qlt.
    destruct ms; [done|simpl; lia]. }
  assert (1 <= inject_Z DN_count)%Q as HDN'.
  { change 1%Q with (inject_Z 1). by rewrite <-Zle_Qle. }
  assert (series_sum (PD_i <$> ms)
          <= inject_Z (Z.of_nat (length ms)) * PD_i m)%Q as Hsum.
  { rewrite <-(length_fmap PD_i ms). apply series_sum_le_max.
    apply Forall_fmap, Forall_forall. intros m' Hm'. simpl. rewrite <-HPD.
    apply (Hmax (final_row DN_count (threshold_value ms DN_count)
                   start_time end_time m')).
    apply elem_of_interval_rows. by exists m'. }
  apply Qle_shift_div_r; [lra|].
  apply Qle_shift_div_r; [done|].
  eapply Qle_trans; [exact Hsum|].
  rewrite (Qmult_comm (inject_Z (Z.of_nat (length ms)))).
  apply Qmult_le_compat_r; [|lra].
  rewrite <-(Qmult_1_r (PD_i m)) at 1.
  apply Qmult_le_l; [done|done].
Qed.

Lemma exists_max_PD (rows : list ResultRow) :
  rows ≠ [] →
  ∃ r, r ∈ rows ∧ ∀ r', r' ∈ rows → (r_PD_i r' <= r_PD_i r)%Q.
Proof.
  induction rows as [|x t IH]; [done|]. intros _.
  destruct t as [|y t'].
  - exists x. split; [by left|]. intros r' ->%list_elem_of_singleton. lra.
  - destruct IH as (r & Hr & Hmax); [done|].
    destruct (Qlt_le_dec (r_PD_i r) (r_PD_i x)) as [Hlt|Hle].
    + exists x. split; [by left|].
      intros r' [->|Hr']%elem_of_cons; [lra|].
      specialize (Hmax r' Hr'). lra.
    + exists r. split; [by right|].
      intros r' [->|Hr']%elem_of_cons; [done|]. by apply Hmax.
Qed.

(** X13: let [DN_count >= 1] and no replication factor of the log be
    negative. In every result file of a run, a row whose [PD_i] is the
    largest of the file is HOT or WARM; so no result file consists of COLD
    rows only. *)
Theorem most_popular_file_not_cold (DN_count : Z) (df : list AccessEvent)
    (out : result unit) (s : state) (idx : nat) (rows : list ResultRow) :
  1 ≤ DN_count →
  (∀ e, e ∈ df → 0 ≤ current_replication_factor e) →
  run DN_count df = Some (out, s) →
  (idx, rows) ∈ disk s →
  (∀ r, r ∈ rows →
        (∀ r', r' ∈ rows → (r_PD_i r' <= r_PD_i r)%Q) →
        r_classification r ≠ COLD)
  ∧ ∃ r, r ∈ rows ∧ r_classification r ≠ COLD.
Proof.
  intros HDN Hlog Hrun Hin.
  destruct (set_time_interval_total df) as [time_interval Hiv].
  apply list_elem_of_lookup in Hin as [k Hk].
  pose proof (proj1 (run_disk_lookup DN_count df time_interval out s k idx rows
                       Hiv Hrun) Hk) as [_ Hk'].
  clear Hk. rename Hk' into Hk.
  destruct (run_table_state DN_count df time_interval k rows Hk)
    as (rf_k & st & en & Hrows & _ & Hge).
  assert (∀ r, r ∈ rows →
            (∀ r', r' ∈ rows → (r_PD_i r' <= r_PD_i r)%Q) →
            r_classification r ≠ COLD) as Hmax.
  { rewrite Hrows. intros r Hr Hr'.
    apply (interval_rows_max_not_cold DN_count rf_k (read_logfile df st en)
             st en r); try done.
    - intros f v Hv. specialize (Hge f v Hv). lia.
    - intros e [_ He]%elem_of_read_logfile. by apply Hlog. }
  split; [done|].
  destruct (exists_max_PD rows) as (r & Hr & Hr').
  { apply list_elem_of_lookup_2 in Hk.
    apply elem_of_run_rows in Hk as (rf' & st' & en' & _ & [Hne _] & ->).
    intros Hnil.
    pose proof (interval_rows_perm DN_count rf' (read_logfile df st' en') st' en')
      as Hperm.
    rewrite Hnil in Hperm. symmetry in Hperm.
    apply Permutation_nil_r in Hperm. apply fmap_nil_inv in Hperm.
    by apply interval_metrics_nil in Hperm. }
  exists r. split; [done|]. by apply Hmax.
Qed.

Lemma most_popular_file_not_cold_witness :
  (∀ r, r ∈ example_rows 0 →
        (∀ r', r' ∈ example_rows 0 → (r_PD_i r' <= r_PD_i r)%Q) →
        r_classification r ≠ COLD)
  ∧ ∃ r, r ∈ example_rows 0 ∧ r_classification r ≠ COLD.
Proof.
  apply (most_popular_file_not_cold 10 example_log (fst example_run)
           (snd example_run) 1).
  - lia.
  - intros e He. vm_compute in He.
    repeat (apply elem_of_cons in He as [->|He]; [by vm_compute|]).
    by apply elem_of_nil in He.
  - by vm_compute.
  - vm_compute. by left.
Defined.





(** * Further properties: the run as a whole *)

Lemma run_rows_length DN_count df time_interval : ∀ rf,
  (length (run_rows DN_count df rf time_interval) ≤ length time_interval)%nat.
Proof.
  induction time_interval as [|[st en] rest IH]; intros rf; [done|].
  simpl. destruct (decide (interval_ok _ _ _)); simpl; [|lia].
  specialize (IH (interval_rf DN_count rf (read_logfile df st en))). lia.
Qed.


Lemma fst_imap_S {A} (l : list A) : ∀ k,
  fst <$> imap (λ i x, ((k + i)%nat, x)) l = seq k (length l).
Proof.
  induction l as [|x l IH]; intros k; [done|].
  simpl. rewrite Nat.add_0_r. f_equal.
  rewrite <-(IH (S k)). f_equal. apply imap_ext. intros i y _. simpl.
  f_equal. lia.
Qed.

Lemma snd_imap {A B} (g : nat → B) (l : list A) :
  snd <$> imap (λ i x, (g i, x)) l = l.
Proof.
  revert g. induction l as [|x l IH]; intros g; [done|].
  simpl. f_equal. apply (IH (g ∘ S)).
Qed.

(** X15: a run always terminates, and the result files it leaves are
    numbered 1, 2, ... without a gap; there are at most as many as windows,
    and exactly as many when, and only when, the run ends without an
    exception. *)
Theorem result_files_numbered (DN_count : Z) (df : list AccessEvent) :
  ∃ time_interval out s,
    set_time_interval df = Some time_interval
    ∧ run DN_count df = Some (out, s)
    ∧ fst <$> disk s = seq 1 (length (disk s))
    ∧ (length (disk s) ≤ length time_interval)%nat
    ∧ (out = Ok () ↔ length (disk s) = length time_interval).
Proof.
  destruct (set_time_interval_total df) as [time_interval Hiv].
  destruct (run_spec DN_count df time_interval Hiv)
    as (out & s & Hrun & Hdisk & Hout).
  exists time_interval, out, s. split; [done|]. split; [done|].
  rewrite Hdisk, length_imap. split; [|split].
  - apply (fst_imap_S _ 1).
  - apply run_rows_length.
  - done.
Qed.



Lemma run_loop_state DN_count df time_interval : ∀ idx s out s',
  DN_count ≠ 0 →
  run_loop DN_count df idx time_interval s = (out, s') →
  ∀ f, current_rf s' !! f
       = match last_nrf f (run_rows DN_count df (current_rf s) time_interval) with
         | Some v => Some v
         | None => current_rf s !! f
         end.
Proof.
  induction time_interval as [|[st en] rest IH]; intros idx s out s' HDN Hrun f.
  - simpl in Hrun. by injection Hrun as <- <-.
  - cbn [run_rows].
    destruct (decide (interval_ok DN_count (current_rf s)
                        (read_logfile df st en))) as [Hok|Hnot].
    + cbn [run_loop] in Hrun. rewrite bind_unfold in Hrun.
      destruct (run_interval_ok DN_count df idx st en s Hok) as (h' & Heq).
      rewrite Heq in Hrun.
      rewrite (IH _ _ _ _ HDN Hrun f). cbn [last_nrf current_rf].
      destruct (last_nrf f _) as [v|]; [done|].
      apply interval_rf_lookup.
    + destruct (run_loop_first_raise DN_count df idx st en rest s Hnot)
        as (e' & s'' & Heq & _ & Hempty & Hzero).
      rewrite Heq in Hrun. injection Hrun as <- <-.
      destruct (decide (read_logfile df st en = [])) as [HL|HL].
      * destruct (Hempty HL) as [_ ->]. done.
      * by destruct (Hzero HL).
Qed.

(** X17: for a non-zero [DN_count], when a run stops (normally or on an
    empty window) the replication factor that [current_rf] holds for a
    file is the [nrf_i] of the file's row in the last result file that has
    one; a file that occurs in no result file has no entry. *)
Theorem final_current_rf (DN_count : Z) (df : list AccessEvent) :
  DN_count ≠ 0 →
  ∃ out s,
    run DN_count df = Some (out, s)
    ∧ ∀ f, current_rf s !! f = last_nrf f (snd <$> disk s).
Proof.
  intros HDN.
  destruct (set_time_interval_total df) as [time_interval Hiv].
  destruct (run_spec DN_count df time_interval Hiv)
    as (out & s & Hrun & Hdisk & _).
  exists out, s. split; [done|]. intros f.
  rewrite Hdisk, (snd_imap S).
  unfold run in Hrun. rewrite Hiv in Hrun. injection Hrun as Hrun.
  rewrite (run_loop_state DN_count df time_interval 1 init out s HDN Hrun f).
  simpl. by destruct (last_nrf f _).
Qed.

Lemma final_current_rf_witness :
  ∃ out s,
    run 10 example_log = Some (out, s)
    ∧ ∀ f, current_rf s !! f = last_nrf f (snd <$> disk s).
Proof.
  apply (final_current_rf 10 example_log). done.
Defined.

(** * Further properties: the update and save methods on their own *)

Lemma F_hot_warm_ok (DN_count : Z) (d : file_dict) :
  DN_count ≠ 0 →
  F_hot_warm DN_count d
  = Ok (λ rf, <[fname (row d) :=
                  Z.max 1 (round (inject_Z (crf_i (row d) * dnc_i (row d))
                                  / inject_Z DN_count))]> rf,
        set_nrf_i (Z.max 1 (round (inject_Z (crf_i (row d) * dnc_i (row d))
                                   / inject_Z DN_count)))).
Proof.
  intros HDN. unfold F_hot_warm, true_div.
  by rewrite (proj2 (Z.eqb_neq DN_count 0) HDN).
Qed.

Lemma foldl_cell_rf_hot_warm_notin (DN_count : Z) (ds : list file_dict) :
  ∀ rf f,
  f ∉ (fname ∘ row) <$> ds →
  foldl (cell_rf (F_hot_warm DN_count)) rf ds !! f = rf !! f.
Proof.
  induction ds as [|d ds IH]; intros rf f Hf; [done|].
  rewrite fmap_cons, not_elem_of_cons in Hf. destruct Hf as [Hne Hf].
  cbn [foldl]. rewrite IH by done. unfold cell_rf, F_hot_warm.
  destruct (true_div _ _); [|done]. by rewrite lookup_insert_ne.
Qed.

(** X18: [calculate_new_rf_for_hot_warm] on its own, for lists of distinct
    dictionaries. With [DN_count = 0] and a dictionary to process it
    raises [ZeroDivisionError] at the first one, having changed nothing.
    Otherwise it does not raise: it gives every listed dictionary the key
    [nrf_i = max (1, round (crf_i * dnc_i / DN_count))] and leaves its
    other keys, the other dictionaries, the result files and the entries
    of [current_rf] of all other files as they were. *)
Theorem calculate_new_rf_for_hot_warm_method (DN_count : Z) (HD WD : list nat)
    (ds : list file_dict) (s : state) :
  NoDup (HD ++ WD) →
  cells (heap s) (HD ++ WD) ds →
  (DN_count = 0 → ds ≠ [] →
   calculate_new_rf_for_hot_warm DN_count HD WD s = (Raise ZeroDivisionError, s))
  ∧ (DN_count ≠ 0 ∨ ds = [] →
     ∃ s',
       calculate_new_rf_for_hot_warm DN_count HD WD s = (Ok (), s')
       ∧ disk s' = disk s
       ∧ cells (heap s') (HD ++ WD)
           ((λ d, set_nrf_i
                    (Z.max 1 (round (inject_Z (crf_i (row d) * dnc_i (row d))
                                     / inject_Z DN_count))) d) <$> ds)
       ∧ (∀ b, b ∉ HD ++ WD → heap s' !! b = heap s !! b)
       ∧ (∀ f, f ∉ (fname ∘ row) <$> ds →
               current_rf s' !! f = current_rf s !! f)).
Proof.
  intros Hnd Hc. split.
  - intros HDN Hne. destruct ds as [|d ds']; [done|].
    by apply (hot_warm_zero DN_count HD WD d ds' s).
  - intros Hcase. unfold calculate_new_rf_for_hot_warm.
    set (l := HD ++ WD) in *.
    match goal with |- context [for_ l ?b s] => set (body := b) end.
    destruct (for_cells_ok (F_hot_warm DN_count) body) with (s := s) (l := l)
      (ds := ds) as (h' & Hrun & Hcells & Hframe); [|exact Hnd|exact Hc| |].
    + intros a s0 d Ha. unfold body. rewrite bind_unfold. unfold deref.
      rewrite Ha. unfold F_hot_warm. rewrite bind_unfold. unfold lift.
      by destruct (true_div _ _).
    + destruct Hcase as [HDN| ->]; [|constructor].
      apply Forall_forall. intros d _. by rewrite F_hot_warm_ok.
    + eexists. split; [exact Hrun|]. simpl. split; [done|].
      split; [|split; [done|]].
      * destruct Hcase as [HDN| ->].
        -- erewrite list_fmap_ext; [exact Hcells|].
           intros i d _. unfold cell_upd. by rewrite F_hot_warm_ok.
        -- apply Forall2_nil_inv_r in Hcells as ->. constructor.
      * intros f Hf. by apply foldl_cell_rf_hot_warm_notin.
Qed.

Lemma calculate_new_rf_for_hot_warm_method_witness :
  (10 = 0 → [to_dict example_F] ≠ [] →
   calculate_new_rf_for_hot_warm 10 [0%nat] []
     {| current_rf := ∅; heap := [to_dict example_F]; disk := [] |}
   = (Raise ZeroDivisionError,
      {| current_rf := ∅; heap := [to_dict example_F]; disk := [] |}))
  ∧ (10 ≠ 0 ∨ [to_dict example_F] = [] →
     ∃ s',
       calculate_new_rf_for_hot_warm 10 [0%nat] []
         {| current_rf := ∅; heap := [to_dict example_F]; disk := [] |}
       = (Ok (), s')
       ∧ disk s' = []
       ∧ cells (heap s') ([0%nat] ++ [])
           ((λ d, set_nrf_i
                    (Z.max 1 (round (inject_Z (crf_i (row d) * dnc_i (row d))
                                     / inject_Z 10))) d) <$> [to_dict example_F])
       ∧ (∀ b, b ∉ [0%nat] ++ [] →
               heap s' !! b = [to_dict example_F] !! b)
       ∧ (∀ f, f ∉ (fname ∘ row) <$> [to_dict example_F] →
               current_rf s' !! f = (∅ : gmap string Z) !! f)).
Proof.
  apply (calculate_new_rf_for_hot_warm_method 10 [0%nat] [] [to_dict example_F]
           {| current_rf := ∅; heap := [to_dict example_F]; disk := [] |}).
  - apply NoDup_singleton.
  - by constructor.
Defined.

Lemma save_loop_raise T start_time end_time l : ∀ ds s,
  NoDup l →
  cells (heap s) l ds →
  Exists (λ d, nrf_i d = None) ds →
  ∃ s', for_ l (λ file_data,
          d ← deref file_data;
          nrf_i ← lift (getitem "nrf_i" (nrf_i d));
          update file_data
            (set_saved (nrf_i =? 1) T start_time end_time)) s
        = (Raise (KeyError "nrf_i"), s')
        ∧ disk s' = disk s ∧ current_rf s' = current_rf s.
Proof.
  induction l as [|a l IH]; intros ds s Hnd Hc Hex.
  - apply Forall2_nil_inv_l in Hc as ->. by apply Exists_nil in Hex.
  - apply Forall2_cons_inv_l in Hc as (d & ds' & Ha & Hc & ->).
    apply NoDup_cons in Hnd as [Hfresh Hnd].
    cbn [for_]. rewrite !bind_unfold. unfold deref at 1. rewrite Ha.
    unfold lift at 1, getitem at 1.
    destruct (nrf_i d) as [n|] eqn:Hn.
    + apply Exists_cons in Hex as [Hd|Hex]; [congruence|].
      unfold update at 1. rewrite bind_unfold. cbv beta iota.
      set (s1 := {| current_rf := current_rf s;
                    heap := alter (set_saved (n =? 1) T start_time end_time) a
                              (heap s);
                    disk := disk s |}).
      destruct (IH ds' s1) as (s' & Hrun & Hdisk & Hrf); [done| |done|].
      * apply cells_frame with (h := heap s); [|done].
        intros b Hb. simpl. apply list_lookup_alter_ne. by intros ->.
      * exists s'. by rewrite Hrun.
    + by exists s.
Qed.

(** X19: [save_interval_results] on its own, for lists of distinct
    dictionaries. It writes no result file for an interval without
    dictionaries ([KeyError], nothing changed), nor when some dictionary
    lacks the key [nrf_i] ([KeyError] on that key, with the result files
    and [current_rf] unchanged). *)
Theorem save_interval_results_errors (interval_idx : nat)
    (start_time end_time : Z) (HD WD CD : list nat) (threshold : float64)
    (ds : list file_dict) (s : state) :
  NoDup (HD ++ WD ++ CD) →
  cells (heap s) (HD ++ WD ++ CD) ds →
  (ds = [] →
   save_interval_results interval_idx start_time end_time HD WD CD threshold s
   = (Raise (KeyError "columns"), s))
  ∧ (Exists (λ d, nrf_i d = None) ds →
     ∃ s',
       save_interval_results interval_idx start_time end_time HD WD CD
         threshold s
       = (Raise (KeyError "nrf_i"), s')
       ∧ disk s' = disk s ∧ current_rf s' = current_rf s).
Proof.
  intros Hnd Hc. split.
  - intros ->. apply Forall2_nil_inv_r in Hc.
    unfold save_interval_results. rewrite Hc. done.
  - intros Hex. unfold save_interval_results.
    destruct (save_loop_raise threshold start_time end_time _ ds s Hnd Hc Hex)
      as (s' & Hrun & Hdisk & Hrf).
    exists s'. by rewrite bind_unfold, Hrun.
Qed.

Lemma save_interval_results_errors_witness :
  ([to_dict example_F] = [] →
   save_interval_results 1 0 interval_duration [0%nat] [] [] (Fin 40)
     {| current_rf := ∅; heap := [to_dict example_F]; disk := [] |}
   = (Raise (KeyError "columns"),
      {| current_rf := ∅; heap := [to_dict example_F]; disk := [] |}))
  ∧ (Exists (λ d, nrf_i d = None) [to_dict example_F] →
     ∃ s',
       save_interval_results 1 0 interval_duration [0%nat] [] [] (Fin 40)
         {| current_rf := ∅; heap := [to_dict example_F]; disk := [] |}
       = (Raise (KeyError "nrf_i"), s')
       ∧ disk s' = [] ∧ current_rf s' = ∅).
Proof.
  apply (save_interval_results_errors 1 0 interval_duration [0%nat] [] []
           (Fin 40) [to_dict example_F]
           {| current_rf := ∅; heap := [to_dict example_F]; disk := [] |}).
  - apply NoDup_singleton.
  - by constructor.
Defined.

(** * Further properties: the front end *)

(** X20: [validate_csv_format] accepts a log exactly when each of the four
    required columns is among its columns; otherwise it returns the
    required columns that are absent, in the order of the required list.
    The verdict depends only on which columns occur: their order,
    repetitions and further columns do not matter. *)
Theorem validate_csv_format_spec (columns : list string) :
  (fst (validate_csv_format columns) = true
   ↔ ∀ c, c ∈ required_columns → c ∈ columns)
  ∧ (fst (validate_csv_format columns) = true
     ↔ snd (validate_csv_format columns) = [])
  ∧ (∀ c, c ∈ snd (validate_csv_format columns)
          ↔ c ∈ required_columns ∧ c ∉ columns)
  ∧ snd (validate_csv_format columns) `sublist_of` required_columns
  ∧ (∀ columns', (∀ c, c ∈ columns ↔ c ∈ columns') →
                 validate_csv_format columns' = validate_csv_format columns).
Proof.
  unfold validate_csv_format. cbv zeta.
  set (required := required_columns).
  assert (∀ c, c ∈ filter (λ col, col ∉ columns) required
               ↔ c ∈ required ∧ c ∉ columns) as Hin.
  { intros c. rewrite list_elem_of_filter. tauto. }
  assert (filter (λ col, col ∉ columns) required `sublist_of` required) as Hsub
    by apply sublist_filter.
  split; [|split; [|split; [|split]]].
  - destruct (filter _ required) as [|c0 t] eqn:Hf; simpl.
    + split; [|done]. intros _ c Hc.
      destruct (decide (c ∈ columns)) as [|Hnot]; [done|].
      assert (c ∈ []) as Habs by (by apply Hin). by apply elem_of_nil in Habs.
    + split; [done|]. intros Hall. exfalso.
      assert (c0 ∈ c0 :: t) as Hc0 by (by left).
      apply Hin in Hc0 as [Hreq Hnot]. by apply Hnot, Hall.
  - by destruct (filter _ required).
  - intros c. rewrite <-Hin. by destruct (filter _ required).
  - by destruct (filter _ required).
  - intros columns' Hsame.
    assert (filter (λ col, col ∉ columns') required
            = filter (λ col, col ∉ columns) required) as ->; [|done].
    apply list_filter_iff. intros c. by rewrite Hsame.
Qed.

Lemma string_length_app (a b : string) :
  String.length (a +:+ b) = (String.length a + String.length b)%nat.
Proof. induction a as [|c a IH]; simpl; [done|]. by rewrite IH. Qed.

Lemma string_app_inj_r (a b c : string) : a +:+ c = b +:+ c → a = b.
Proof.
  revert b. induction a as [|x a IH]; intros [|y b] Heq.
  - done.
  - apply (f_equal String.length) in Heq.
    rewrite !string_length_app in Heq. simpl in Heq. lia.
  - apply (f_equal String.length) in Heq.
    rewrite !string_length_app in Heq. simpl in Heq. lia.
  - change (String x (a +:+ c) = String y (b +:+ c)) in Heq.
    injection Heq as -> Heq. f_equal. by apply IH.
Qed.

Lemma prefix_app (p x : string) : String.prefix p (p +:+ x) = true.
Proof.
  induction p as [|c p IH].
  - change ("" +:+ x) with x. by destruct x.
  - change (String c p +:+ x) with (String c (p +:+ x)). cbn [String.prefix].
    by destruct (Ascii.ascii_dec c c).
Qed.

Lemma substring_all (s : string) : String.substring 0 (String.length s) s = s.
Proof. induction s as [|c s IH]; simpl; [done|]. by rewrite IH. Qed.

Lemma substring_app (a b : string) :
  String.substring (String.length a) (String.length b) (a +:+ b) = b.
Proof.
  induction a as [|c a IH]; [apply substring_all|].
  change (String c a +:+ b) with (String c (a +:+ b)). exact IH.
Qed.

Lemma endswith_app (a suffix : string) : endswith (a +:+ suffix) suffix = true.
Proof.
  unfold endswith. cbv zeta. rewrite string_length_app.
  apply andb_true_intro. split; [apply Nat.leb_le; lia|].
  replace (String.length a + String.length suffix - String.length suffix)%nat
    with (String.length a) by lia.
  rewrite substring_app. apply String.eqb_refl.
Qed.

Lemma string_app_assoc (a b c : string) : a +:+ (b +:+ c) = (a +:+ b) +:+ c.
Proof.
  induction a as [|x a IH]; [done|].
  change (String x (a +:+ (b +:+ c)) = String x ((a +:+ b) +:+ c)).
  by rewrite IH.
Qed.

Lemma output_file_inj (i j : nat) : output_file i = output_file j → i = j.
Proof.
  unfold output_file. intros Heq.
  apply (inj (String.app "interval_")) in Heq.
  apply string_app_inj_r in Heq. by apply (inj pretty) in Heq.
Qed.

Lemma is_result_file_output_file (idx : nat) :
  is_result_file (output_file idx) = true.
Proof.
  unfold is_result_file, startswith. apply andb_true_intro. split.
  - apply prefix_app.
  - unfold output_file. rewrite string_app_assoc. apply endswith_app.
Qed.

(** X21: every interval of a run writes to a file of its own (the names
    for two different indices differ, so no result is overwritten), and
    each of these files that is in the directory is put in the archive by
    [create_download_zip]; the archive holds nothing but files of the
    directory whose names start with [interval_] and end with
    [_results.csv]. *)
Theorem result_files_selected (listdir : list string) :
  (∀ i j, output_file i = output_file j → i = j)
  ∧ (∀ idx, output_file idx ∈ listdir →
            output_file idx ∈ create_download_zip listdir)
  ∧ (∀ file, file ∈ create_download_zip listdir →
             file ∈ listdir
             ∧ startswith file "interval_" = true
             ∧ endswith file "_results.csv" = true).
Proof.
  split; [apply output_file_inj|]. unfold create_download_zip. split.
  - intros idx Hin. apply list_elem_of_filter. split; [|done].
    apply is_result_file_output_file.
  - intros file [Hres Hin]%list_elem_of_filter. split; [done|].
    by apply andb_true_iff in Hres.
Qed.

Lemma sorted_spec (l : list string) :
  StronglySorted String.le (sorted l) ∧ sorted l ≡ₚ l.
Proof.
  split; [apply StronglySorted_merge_sort; apply _|].
  apply merge_sort_Permutation.
Qed.

Lemma output_files_sorted (n : nat) :
  (n ≤ 9)%nat → StronglySorted String.le (output_file <$> seq 1 n).
Proof.
  intros Hn.
  do 10 (destruct n as [|n];
         [apply (bool_decide_unpack _); by vm_compute|]).
  lia.
Qed.

(** X22: let the result files in the directory be those of a run with [n]
    intervals. With [n <= 9] the tab of position [i] shows the result of
    interval [i + 1]. With [n >= 10] it does not: the names are sorted as
    strings, so the first tab, labelled [Interval 1], shows the result of
    another interval. *)
Theorem interval_tabs_order (listdir : list string) (n : nat) :
  filter (λ f, is_result_file f = true) listdir ≡ₚ output_file <$> seq 1 n →
  ((n ≤ 9)%nat → interval_files listdir = output_file <$> seq 1 n)
  ∧ ((10 ≤ n)%nat →
     ∃ file, interval_files listdir !! 0%nat = Some file
             ∧ file ≠ output_file 1).
Proof.
  intros Hperm. unfold interval_files.
  destruct (sorted_spec (filter (λ f, is_result_file f = true) listdir))
    as [Hsorted Hperm'].
  pose proof (Permutation_trans Hperm' Hperm) as Hperm''.
  clear Hperm'. rename Hperm'' into Hperm'. split.
  - intros Hn. apply (StronglySorted_unique String.le); [done| |done].
    by apply output_files_sorted.
  - intros Hn.
    destruct (sorted _) as [|file t] eqn:Hs.
    { symmetry in Hperm'. apply Permutation_nil_r in Hperm'.
      apply fmap_nil_inv in Hperm'. destruct n; [lia|done]. }
    exists file. split; [done|]. intros ->.
    assert (output_file 10 ∈ output_file 1 :: t) as Hin.
    { rewrite Hperm'. apply list_elem_of_fmap. exists 10%nat. split; [done|].
      apply elem_of_seq. lia. }
    apply elem_of_cons in Hin as [Heq|Hin].
    + by apply output_file_inj in Heq.
    + apply StronglySorted_inv in Hsorted as [_ Hall].
      rewrite Forall_forall in Hall. specialize (Hall _ Hin).
      by vm_compute in Hall.
Qed.

Lemma interval_tabs_order_witness :
  ((10 ≤ 9)%nat →
   interval_files (output_file <$> seq 1 10) = output_file <$> seq 1 10)
  ∧ ((10 ≤ 10)%nat →
     ∃ file, interval_files (output_file <$> seq 1 10) !! 0%nat = Some file
             ∧ file ≠ output_file 1).
Proof.
  apply (interval_tabs_order (output_file <$> seq 1 10) 10).
  assert (filter (λ f, is_result_file f = true) (output_file <$> seq 1 10)
          = output_file <$> seq 1 10) as -> by (by vm_compute).
  done.
Defined.
